(** * Pelican director: topology import, filter registry, ad-store hooks

    A shallow embedding of the director code in [director/advertise.go] and
    [director/director_api.go], together with the properties of the
    specification that concern it.

    Conventions.
    - Go maps are stdpp [gmap]s; Go slices are lists.
    - A Go [error] is the text of its message.
    - Functions of the Go standard library and of third-party packages that
      the director calls ([url.Parse], [time.Parse], [strconv.ParseFloat],
      the ttlcache package) are either variables of the section or small
      models that are documented where they are declared.
    - Log output is returned by the functions that write it. *)

From Stdlib Require Import ZArith String Ascii Strings.Byte List Bool Lia PrimFloat.
From stdpp Require Import base option list relations gmap strings fin_maps.

Local Open Scope string_scope.
Local Open Scope Z_scope.
Local Open Scope list_scope.
Local Open Scope stdpp_scope.

(** ** Logging (logrus) *)

Inductive LogLevel := DebugLevel | InfoLevel | WarnLevel | ErrorLevel.

(** A log line keeps the format string and the arguments that the source
    passes to it. *)
Record LogEntry := Log { logLevel : LogLevel; logFormat : string; logArgs : list string }.

Definition error := string.

(** [errors.Wrap(err, msg)] *)
Definition errors_Wrap (err : error) (msg : string) : error := msg +:+ ": " +:+ err.

(** ** server_structs: the records the director code reads and writes *)

(** Modelled from the spec: the package [server_structs] is not among the
    sources. Each record below has the fields that [advertise.go] and
    [director_api.go] read or write, under the names used there; they are
    the data of section 3 of the specification (capabilities, server
    advertisement, downtime record). *)
Module server_structs.

Record Capabilities := mkCapabilities {
  PublicReads : bool;
  Reads : bool;
  Writes : bool;
  Listings : bool;
  DirectReads : bool
}.

(** The zero value [Capabilities{}]. *)
Definition Capabilities_zero : Capabilities :=
  mkCapabilities false false false false false.

(** An entry of the topology manifest for one origin or cache. *)
Record TopoServer := mkTopoServer {
  Resource : string;
  Endpoint : string;
  AuthEndpoint : string
}.

(** One [<Downtime>] element of the topology downtime XML. *)
Record TopoServerDowntime := mkTopoServerDowntime {
  ResourceName : string;
  dt_StartTime : string;
  dt_EndTime : string;
  dt_CreatedTime : string;
  dt_UpdateTime : string;
  dt_Class : string;
  dt_Severity : string;
  dt_Description : string
}.

Record TopoDowntimeInfo := mkTopoDowntimeInfo {
  CurrentDowntimes : list TopoServerDowntime;
  FutureDowntimes : list TopoServerDowntime
}.

Inductive Class := SCHEDULED | UNSCHEDULED.

Inductive Severity :=
  | Outage | Severe | IntermittentOutage | NoSignificantOutageExpected.

(** A row of the director's downtime table; times are Unix milliseconds. *)
Record Downtime := mkDowntime {
  ServerName : string;
  d_Class : Class;
  d_Severity : Severity;
  Source : string;
  StartTime : Z;
  EndTime : Z;
  Description : string;
  CreatedAt : Z;
  UpdatedAt : Z
}.

End server_structs.
Import server_structs.

(** [type filterType string] *)
Abbreviation filterType := string (only parsing).

(** The label values (server_name, server_type, from_topology) of the
    server count metric, and the type of a Prometheus gauge vector. *)
Abbreviation Labels := (string * string * string)%type (only parsing).
Abbreviation GaugeVec := (gmap Labels Z) (only parsing).

Section Director.

(** [net/url]: the type [url.URL], its zero value, [url.Parse] ([inl] is
    the error result, for which Go returns a nil pointer) and
    the [String] method of a URL. *)
Context {URL : Type}.
Variable url_zero : URL.
Variable url_Parse : string → error + URL.
Variable url_String : URL → string.

(** [server_structs.ServerType] with the two constants the importer uses
    and its [String] method. *)
Context {ServerType : Type}.
Variables OriginType CacheType : ServerType.
Variable ServerType_String : ServerType → string.

(** Modelled from the spec: [server_structs.ServerAd] is declared in a file
    that is not among the sources. The fields are those the director code
    names: identity ([Name], [Type], the three URLs), provenance
    ([FromTopology]), the capabilities and the I/O load. *)
Record ServerAd := mkServerAd {
  Name : string;
  AuthURL : URL;
  ad_URL : URL;
  WebURL : URL;
  ad_Type : string;
  Caps : Capabilities;
  FromTopology : bool;
  IOLoad : float
}.

(** The zero value [ServerAd{}]. *)
Definition ServerAd_zero : ServerAd :=
  mkServerAd "" url_zero url_zero url_zero "" Capabilities_zero false 0%float.

Definition set_Caps (c : Capabilities) (ad : ServerAd) : ServerAd :=
  mkServerAd (Name ad) (AuthURL ad) (ad_URL ad) (WebURL ad) (ad_Type ad) c
             (FromTopology ad) (IOLoad ad).

(** *** advertise.go: consolidateDupServerAd *)

Definition consolidateDupServerAd (newAd existingAd : ServerAd) : ServerAd :=
  let consolidatedAd := existingAd in
  let directReads := DirectReads (Caps existingAd) || DirectReads (Caps newAd) in
  let publicReads := PublicReads (Caps existingAd) || PublicReads (Caps newAd) in
  let reads := Reads (Caps existingAd) || Reads (Caps newAd) in
  let writes := Writes (Caps existingAd) || Writes (Caps newAd) in
  let listings := Listings (Caps existingAd) || Listings (Caps newAd) in
  set_Caps (mkCapabilities publicReads reads writes listings directReads)
           consolidatedAd.

(** *** advertise.go: parseServerAdFromTopology *)

(** [strings.HasPrefix(s, p)] *)
Definition strings_HasPrefix (s p : string) : bool := String.prefix p s.

Definition parseServerAdFromTopology
    (server : TopoServer) (serverType : ServerType) (caps : Capabilities)
    : ServerAd * list LogEntry :=
  let type := ServerType_String serverType in
  let name := Resource server in
  let ioLoad := 0%float in
  let caps' :=
    if String.eqb type (ServerType_String CacheType)
    then mkCapabilities true (Reads Capabilities_zero) false false false
    else caps in
  let fromTopology := true in
  let endpoint :=
    if negb (strings_HasPrefix (Endpoint server) "http")
    then "http://" +:+ Endpoint server
    else Endpoint server in
  let '(url, log1) :=
    match url_Parse endpoint with
    | inl _ =>
        (url_zero,
         [Log WarnLevel
            "Namespace JSON returned server %s with invalid unauthenticated URL %s"
            [Resource server; endpoint]])
    | inr u => (u, [])
    end in
  let '(authUrl, log2) :=
    if negb (String.eqb (AuthEndpoint server) "") then
      let authEndpoint :=
        if negb (strings_HasPrefix (AuthEndpoint server) "http")
        then "https://" +:+ AuthEndpoint server
        else AuthEndpoint server in
      match url_Parse authEndpoint with
      | inl _ =>
          (url_zero,
           [Log WarnLevel
              "Namespace JSON returned server %s with invalid authenticated URL %s"
              [Resource server; authEndpoint]])
      | inr u => (u, [])
      end
    else (url_zero, []) in
  (mkServerAd name authUrl url url_zero type caps' fromTopology ioLoad,
   log1 ++ log2).

(** *** The filter registry *)

(** Modelled from the spec: the declaration of [filterType] and of its six
    constants is not among the sources. [checkFilter] returns the untyped
    constant [""] as a [filterType], so it is a string type; each constant
    is given the name the specification uses for its state. A Go switch
    with two equal constant cases does not compile, so the six constants
    are pairwise distinct whatever their text is. *)
Definition permFiltered : filterType := "perm_filtered".
Definition tempFiltered : filterType := "temp_filtered".
Definition topoFiltered : filterType := "topo_filtered".
Definition serverFiltered : filterType := "server_filtered".
Definition shutdownFiltered : filterType := "shutdown_filtered".
Definition tempAllowed : filterType := "temp_allowed".

(** *** director_api.go: checkFilter

    The global [filteredServers] map is an argument; the read lock has no
    counterpart here. *)
Definition checkFilter (filteredServers : gmap string filterType)
    (serverName : string) : (bool * filterType) * list LogEntry :=
  match filteredServers !! serverName with
  | None => ((false, ""), [])
  | Some status =>
      if String.eqb status permFiltered then ((true, permFiltered), [])
      else if String.eqb status tempFiltered then ((true, tempFiltered), [])
      else if String.eqb status topoFiltered then ((true, topoFiltered), [])
      else if String.eqb status serverFiltered then ((true, serverFiltered), [])
      else if String.eqb status shutdownFiltered then ((true, shutdownFiltered), [])
      else if String.eqb status tempAllowed then ((false, tempAllowed), [])
      else ((false, ""), [Log ErrorLevel "Unknown filterType: " [status]])
  end.

(** *** Time

    A [time.Time] is the number of nanoseconds since the Unix epoch.
    [time.Parse layout value] is a variable; [inl] carries the error. *)
Definition Time := Z.
Variable time_Parse : string → string → error + Time.

Definition Time_After (t u : Time) : bool := u <? t.
Definition Time_Before (t u : Time) : bool := t <? u.
Definition Time_UnixMilli (t : Time) : Z := t `div` 1000000.

Definition timeLayout : string := "Jan 2, 2006 15:04 PM MST".

(** *** advertise.go: updateDowntimeFromTopology *)

(** What one run obtains from outside the process: the configured URL,
    the answer of [utils.MakeRequest] and the clock. *)
Record DowntimeSource := mkDowntimeSource {
  Federation_TopologyDowntimeUrl : string;
  MakeRequest : string → error + list byte;
  time_Now : Time
}.

Variable xml_Unmarshal : list byte → error + TopoDowntimeInfo.

(** The two globals the function writes. *)
Record DowntimeState := mkDowntimeState {
  filteredServers : gmap string filterType;
  topologyDowntimes : gmap string (list Downtime)
}.

(** The first loop: delete every entry whose value is [topoFiltered]. *)
Definition purgeTopoFiltered (m : gmap string filterType) : gmap string filterType :=
  filter (λ kv, kv.2 ≠ topoFiltered) m.

Definition parseClass (c : string) : option Class :=
  if String.eqb c "SCHEDULED" then Some SCHEDULED
  else if String.eqb c "UNSCHEDULED" then Some UNSCHEDULED
  else None.

Definition parseSeverity (s : string) : option Severity :=
  if strings_HasPrefix s "Outage" then Some Outage
  else if strings_HasPrefix s "Severe" then Some Severe
  else if strings_HasPrefix s "Intermittent" then Some IntermittentOutage
  else if strings_HasPrefix s "No" then Some NoSignificantOutageExpected
  else None.

(** The state of the second loop: the registry, the new downtime table and
    the log written so far. *)
Definition LoopState : Type :=
  gmap string filterType * gmap string (list Downtime) * list LogEntry.

Definition warnUnparsed (what : string) (name value err : string) : LogEntry :=
  Log WarnLevel
    ("Could not put %s into downtime because its " +:+ what +:+
     " time '%s' could not be parsed: %s")
    [name; value; err].

(** The [filteredServers] update of an active downtime (lines 172-177). *)
Definition markTopoFiltered (name : string) (fs : gmap string filterType)
    : gmap string filterType :=
  match fs !! name with
  | Some originalFilterType =>
      if negb (String.eqb originalFilterType tempAllowed) then fs
      else <[name := topoFiltered]> fs
  | None => <[name := topoFiltered]> fs
  end.

(** One iteration of the loop over the fetched downtimes; every [continue]
    of the source is a branch that returns the state reached so far. *)
Definition downtimeStep (currentTime : Time) (acc : LoopState)
    (downtime : TopoServerDowntime) : LoopState :=
  let '(fs, latest, logs) := acc in
  let name := ResourceName downtime in
  match time_Parse timeLayout (dt_StartTime downtime) with
  | inl err => (fs, latest, logs ++ [warnUnparsed "start" name (dt_StartTime downtime) err])
  | inr parsedStartDT =>
  match time_Parse timeLayout (dt_EndTime downtime) with
  | inl err => (fs, latest, logs ++ [warnUnparsed "end" name (dt_EndTime downtime) err])
  | inr parsedEndDT =>
  if Time_After parsedEndDT currentTime then
    let fs' :=
      if Time_Before parsedStartDT currentTime then markTopoFiltered name fs
      else fs in
    match time_Parse timeLayout (dt_CreatedTime downtime) with
    | inl err =>
        (fs', latest, logs ++ [warnUnparsed "created" name (dt_CreatedTime downtime) err])
    | inr parsedCreatedTime =>
    match time_Parse timeLayout (dt_UpdateTime downtime) with
    | inl err =>
        (fs', latest, logs ++ [warnUnparsed "update" name (dt_UpdateTime downtime) err])
    | inr parsedUpdateTime =>
    match parseClass (dt_Class downtime) with
    | None =>
        (fs', latest,
         logs ++ [Log WarnLevel "Unrecognized downtime class '%s' for server %s"
                      [dt_Class downtime; name]])
    | Some parsedClass =>
    match parseSeverity (dt_Severity downtime) with
    | None =>
        (fs', latest,
         logs ++ [Log WarnLevel "Unrecognized downtime class '%s' for server %s"
                      [dt_Severity downtime; name]])
    | Some parsedSeverity =>
        let dtRecord :=
          mkDowntime name parsedClass parsedSeverity "topology"
                     (Time_UnixMilli parsedStartDT) (Time_UnixMilli parsedEndDT)
                     (dt_Description downtime)
                     (Time_UnixMilli parsedCreatedTime)
                     (Time_UnixMilli parsedUpdateTime) in
        (fs', <[name := default [] (latest !! name) ++ [dtRecord]]> latest, logs)
    end end end end
  else (fs, latest, logs)
  end end.

(** The part of the function that runs once the feed has been fetched and
    decoded. The final [Infof] prints the registry with [%#v]; its argument
    is not rendered here. *)
Definition applyDowntimeInfo (currentTime : Time) (downtimeInfo : TopoDowntimeInfo)
    (st : DowntimeState) : DowntimeState * list LogEntry :=
  let fs0 := purgeTopoFiltered (filteredServers st) in
  let fetchedTopologyDowntimes :=
    CurrentDowntimes downtimeInfo ++ FutureDowntimes downtimeInfo in
  let '(fs, latestTopologyDowntimes, logs) :=
    foldl (downtimeStep currentTime) (fs0, ∅, []) fetchedTopologyDowntimes in
  (mkDowntimeState fs latestTopologyDowntimes,
   logs ++ [Log InfoLevel
              "The following servers are currently configured in downtime: %#v" []]).

Definition updateDowntimeFromTopology (src : DowntimeSource) (st : DowntimeState)
    : option error * DowntimeState * list LogEntry :=
  let dtUrlStr := Federation_TopologyDowntimeUrl src in
  match url_Parse dtUrlStr with
  | inl err =>
      (Some (errors_Wrap err
               ("encountered an invalid URL " +:+ dtUrlStr +:+
                " when parsing configured topology downtime URL")),
       st, [])
  | inr _ =>
  match MakeRequest src dtUrlStr with
  | inl err =>
      (Some (errors_Wrap err ("failed to fetch topology downtime from " +:+ dtUrlStr)),
       st, [])
  | inr resp =>
  match xml_Unmarshal resp with
  | inl err =>
      (Some (errors_Wrap err "failed to unmarshal topology downtime XML"), st, [])
  | inr downtimeInfo =>
      let '(st', logs) := applyDowntimeInfo (time_Now src) downtimeInfo st in
      (None, st', logs)
  end end end.

(** *** The topology manifest and the advertisements built from it

    Modelled from the spec: these records of [server_structs] and of the
    topology JSON are declared in files that are not among the sources;
    they have the fields that [AdvertiseOSDF] reads and writes. *)

Record TokenGen := mkTokenGen {
  Strategy : string;
  VaultServer : string;
  MaxScopeDepth : Z;            (* uint *)
  CredentialIssuer : URL
}.

Definition TokenGen_zero : TokenGen := mkTokenGen "" "" 0 url_zero.

Record TokenIssuer := mkTokenIssuer {
  BasePaths : list string;
  RestrictedPaths : list string;
  IssuerUrl : URL
}.

Record NamespaceAdV2 := mkNamespaceAdV2 {
  ns_Path : string;
  ns_Caps : Capabilities;
  Generation : list TokenGen;
  Issuer : list TokenIssuer;
  ns_FromTopology : bool
}.

(** [server_structs.Advertisement] embeds a [ServerAd]. *)
Record Advertisement := mkAdvertisement {
  ad_ServerAd : ServerAd;
  NamespaceAds : list NamespaceAdV2
}.

Record CredentialGeneration := mkCredentialGeneration {
  cg_Issuer : string;
  cg_Strategy : string;
  cg_VaultServer : string;
  cg_MaxScopeDepth : Z          (* int *)
}.

Record Scitoken := mkScitoken {
  st_Issuer : string;
  st_BasePath : list string;
  st_Restricted : list string
}.

Record Namespace := mkNamespace {
  UseTokenOnRead : bool;
  CredentialGen : CredentialGeneration;
  Scitokens : list Scitoken;
  WritebackHost : string;
  DirlistHost : string;
  ReadHTTPS : bool;
  Path : string;
  Origins : list TopoServer;
  Caches : list TopoServer
}.

Record TopologyNamespacesJSON := mkTopologyNamespacesJSON {
  Namespaces : list Namespace
}.

(** The conversion [uint(x)] of an [int] on a 64-bit platform. *)
Definition uint_of_int (x : Z) : Z := x `mod` 2 ^ 64.

(** *** advertise.go: AdvertiseOSDF *)

(** The body of the loops over [ns.Origins] and [ns.Caches]: parse the
    server and either start a new entry under its URL or fold it into the
    entry that is already there. The map holds pointers in the source, so
    the two assignments through [existingAd] update the entry in place. *)
Definition addTopologyServer (serverType : ServerType) (caps : Capabilities)
    (nsAd : NamespaceAdV2) (acc : gmap string Advertisement * list LogEntry)
    (server : TopoServer) : gmap string Advertisement * list LogEntry :=
  let '(adMap, logs) := acc in
  let '(serverAd, l) := parseServerAdFromTopology server serverType caps in
  let key := url_String (ad_URL serverAd) in
  match adMap !! key with
  | Some existingAd =>
      let namespaceAds := NamespaceAds existingAd ++ [nsAd] in
      let consolidatedAd := consolidateDupServerAd serverAd (ad_ServerAd existingAd) in
      (<[key := mkAdvertisement consolidatedAd namespaceAds]> adMap, logs ++ l)
  | None =>
      (<[key := mkAdvertisement serverAd [nsAd]]> adMap, logs ++ l)
  end.

(** The scitokens loop: an issuer whose URL does not parse is skipped. *)
Definition addScitoken (acc : list TokenIssuer * list LogEntry) (scitok : Scitoken)
    : list TokenIssuer * list LogEntry :=
  let '(tokenIssuers, logs) := acc in
  match url_Parse (st_Issuer scitok) with
  | inl err =>
      (tokenIssuers,
       logs ++ [Log WarnLevel "Invalid URL %v when parsing topology response: %v\n"
                    [st_Issuer scitok; err]])
  | inr issuer =>
      (tokenIssuers ++ [mkTokenIssuer (st_BasePath scitok) (st_Restricted scitok) issuer],
       logs)
  end.

Record ImportState := mkImportState {
  cacheAdMap : gmap string Advertisement;
  originAdMap : gmap string Advertisement;
  tGen : TokenGen;               (* declared once, outside the loop *)
  importLogs : list LogEntry
}.

Definition namespaceStep (disableOrigins disableCaches : bool)
    (acc : ImportState) (ns : Namespace) : ImportState :=
  let requireToken := UseTokenOnRead ns in
  let tokenPart : error + (TokenGen * list TokenIssuer * list LogEntry) :=
    if requireToken then
      match url_Parse (cg_Issuer (CredentialGen ns)) with
      | inl err => inl err
      | inr credIssuer =>
          let tGen' :=
            mkTokenGen (cg_Strategy (CredentialGen ns))
                       (cg_VaultServer (CredentialGen ns))
                       (uint_of_int (cg_MaxScopeDepth (CredentialGen ns)))
                       credIssuer in
          let '(tokenIssuers, logs) := foldl addScitoken ([], []) (Scitokens ns) in
          inr (tGen', tokenIssuers, logs)
      end
    else inr (tGen acc, [], []) in
  match tokenPart with
  | inl err =>
      (* the [continue] after the credential issuer failed to parse *)
      mkImportState (cacheAdMap acc) (originAdMap acc) (tGen acc)
        (importLogs acc ++
         [Log WarnLevel "Invalid URL %v when parsing topology response %v\n"
              [cg_Issuer (CredentialGen ns); err]])
  | inr (tGen', tokenIssuers, logs) =>
      let write := negb (String.eqb (WritebackHost ns) "") in
      let listings := negb (String.eqb (DirlistHost ns) "") in
      let caps :=
        mkCapabilities (negb (UseTokenOnRead ns)) (ReadHTTPS ns) write listings true in
      let nsAd := mkNamespaceAdV2 (Path ns) caps [tGen'] tokenIssuers true in
      let '(origins, logsO) :=
        if negb disableOrigins
        then foldl (addTopologyServer OriginType caps nsAd) (originAdMap acc, [])
                   (Origins ns)
        else (originAdMap acc, []) in
      let '(caches, logsC) :=
        if negb disableCaches
        then foldl (addTopologyServer CacheType Capabilities_zero nsAd)
                   (cacheAdMap acc, []) (Caches ns)
        else (cacheAdMap acc, []) in
      mkImportState caches origins tGen' (importLogs acc ++ logs ++ logsO ++ logsC)
  end.

(** Everything [AdvertiseOSDF] reads from outside the process. *)
Record TopologySource := mkTopologySource {
  GetTopologyJSON : error + TopologyNamespacesJSON;
  Topology_DisableDowntime : bool;
  Topology_DisableOrigins : bool;
  Topology_DisableCaches : bool;
  downtimeSource : DowntimeSource
}.

(** The state of the director that the import can reach: the filter
    registry with the downtime table, and the ad store with whatever else
    [recordAd] maintains. [recordAd] is defined in a file that is not among
    the sources, so it is a variable, and so is the type of the state it
    works on. *)
Context {AdState : Type}.
Variable recordAd : ServerAd → list NamespaceAdV2 → AdState → AdState.

Record DirectorState := mkDirectorState {
  downtimeState : DowntimeState;
  adState : AdState
}.

(** [for _, ad := range m { recordAd(ctx, ad.ServerAd, &ad.NamespaceAds) }].
    Go leaves the order of a map range unspecified; the order used here is
    that of [map_to_list]. *)
Definition recordAll (m : gmap string Advertisement) (s : AdState) : AdState :=
  foldl (λ s kv, recordAd (ad_ServerAd kv.2) (NamespaceAds kv.2) s) s (map_to_list m).

Definition AdvertiseOSDF (src : TopologySource) (st : DirectorState)
    : option error * DirectorState * list LogEntry :=
  match GetTopologyJSON src with
  | inl err => (Some (errors_Wrap err "Failed to get topology JSON"), st, [])
  | inr namespaces =>
      let '(err, dts, logs1) :=
        if negb (Topology_DisableDowntime src)
        then updateDowntimeFromTopology (downtimeSource src) (downtimeState st)
        else (None, downtimeState st, []) in
      let logs2 :=
        match err with
        | Some e =>
            [Log ErrorLevel
               "Unable to generate downtime list for servers from topology: %v" [e]]
        | None => []
        end in
      let imp :=
        foldl (namespaceStep (Topology_DisableOrigins src) (Topology_DisableCaches src))
              (mkImportState ∅ ∅ TokenGen_zero []) (Namespaces namespaces) in
      let ads := recordAll (cacheAdMap imp) (recordAll (originAdMap imp) (adState st)) in
      (None, mkDirectorState dts ads, logs1 ++ logs2 ++ importLogs imp)
  end.

(** *** The ad store: a ttlcache of advertisements keyed by server URL

    The package github.com/jellydator/ttlcache/v3 is a dependency, not
    part of the director. The model keeps what the director code relies
    on: an item has a value, a time to live and an expiry; [Get] returns
    nothing for an absent or expired item, counts the hit or the miss and,
    unless touching is disabled, moves the expiry of the item it returns
    to [now + ttl]. The order of recent use and the loader are left out. *)

Record Item := mkItem {
  item_value : Advertisement;   (* a pointer in the source *)
  item_ttl : Z;
  item_expiresAt : Time
}.

Record Cache := mkCache {
  cache_items : gmap string Item;
  cache_disableTouchOnHit : bool;   (* the option given when the cache is built *)
  cache_hits : Z;
  cache_misses : Z
}.

Inductive GetOption := WithDisableTouchOnHit.

Definition Item_isExpired (now : Time) (it : Item) : bool :=
  if item_ttl it <=? 0 then false else Time_Before (item_expiresAt it) now.

Definition Item_touch (now : Time) (it : Item) : Item :=
  if item_ttl it <=? 0 then it
  else mkItem (item_value it) (item_ttl it) (now + item_ttl it).

Definition Cache_Get (now : Time) (key : string) (opts : list GetOption) (c : Cache)
    : option Item * Cache :=
  let disableTouchOnHit :=
    foldl (λ _ o, match o with WithDisableTouchOnHit => true end)
          (cache_disableTouchOnHit c) opts in
  match cache_items c !! key with
  | Some it =>
      if Item_isExpired now it then
        (None, mkCache (cache_items c) (cache_disableTouchOnHit c)
                       (cache_hits c) (cache_misses c + 1))
      else
        let it' := if negb disableTouchOnHit then Item_touch now it else it in
        (Some it', mkCache (<[key := it']> (cache_items c)) (cache_disableTouchOnHit c)
                           (cache_hits c + 1) (cache_misses c))
  | None =>
      (None, mkCache (cache_items c) (cache_disableTouchOnHit c)
                     (cache_hits c) (cache_misses c + 1))
  end.

(** Modelled from the spec: [SetIOLoad] is a method of [ServerAd] whose
    file is not among the sources; section 4.6 says that the scraper sets
    [io_load] on the ad, so the method assigns the field and nothing else. *)
Definition SetIOLoad (load : float) (ad : ServerAd) : ServerAd :=
  mkServerAd (Name ad) (AuthURL ad) (ad_URL ad) (WebURL ad) (ad_Type ad) (Caps ad)
             (FromTopology ad) load.

(** [item.Value().SetIOLoad(load)]: the write goes through the pointer
    that the item holds, so the item in the store sees it. *)
Definition Item_SetIOLoad (load : float) (it : Item) : Item :=
  mkItem (mkAdvertisement (SetIOLoad load (ad_ServerAd (item_value it)))
                          (NamespaceAds (item_value it)))
         (item_ttl it) (item_expiresAt it).

(** *** director_api.go: LaunchServerIOQuery, one round of the loop *)

(** A value of type [interface{}] in the label set of a Prometheus row. *)
Inductive Any := AnyString (s : string) | AnyOther.

Record PromRow := mkPromRow {
  Metric : gmap string Any;
  Values : list string            (* the [Value] field of each sample *)
}.

Record QueryResult := mkQueryResult {
  ResultType : string;
  Result : list PromRow
}.

Variable strconv_ParseFloat : string → error + float.

Definition debugf (fmt : string) (args : list string) : LogEntry :=
  Log DebugLevel fmt args.

(** The loop over [queryResult.Result]. The third component is [true]
    when the round stopped at [result.Values[0]] on a row without samples:
    the index is out of range and the goroutine panics. *)
Fixpoint scrapeRows (now : Time) (rows : list PromRow) (c : Cache) (logs : list LogEntry)
    : Cache * list LogEntry * bool :=
  match rows with
  | [] => (c, logs, false)
  | result :: rest =>
      match Metric result !! "server_url" with
      | None =>
          scrapeRows now rest c
            (logs ++ [debugf "Failed to update IO stat: Prometheus query response does not contain server_url metric: %#v" []])
      | Some AnyOther =>
          scrapeRows now rest c
            (logs ++ [debugf "Failed to update IO stat: Prometheus query response contains invalid server_url: %#v" []])
      | Some (AnyString serverUrl) =>
          match Values result with
          | [] => (c, logs, true)
          | ioDerivStr :: _ =>
              if String.eqb ioDerivStr "" then
                scrapeRows now rest c
                  (logs ++ [debugf "Skipped updating IO stat for server %s: Prometheus query responded with empty I/O value: %#v" [serverUrl]])
              else
                match strconv_ParseFloat ioDerivStr with
                | inl _ =>
                    scrapeRows now rest c
                      (logs ++ [debugf "Failed to update IO stat for server %s: failed to convert Prometheus response to a float number: %s" [serverUrl; ioDerivStr]])
                | inr ioDeriv =>
                    match Cache_Get now serverUrl [WithDisableTouchOnHit] c with
                    | (None, c') =>
                        scrapeRows now rest c'
                          (logs ++ [debugf "Failed to update IO stat for server %s: server does not exist in the director" [serverUrl]])
                    | (Some _, c') =>
                        scrapeRows now rest
                          (mkCache (alter (Item_SetIOLoad ioDeriv) serverUrl (cache_items c'))
                                   (cache_disableTouchOnHit c') (cache_hits c')
                                   (cache_misses c'))
                          logs
                    end
                end
          end
      end
  end.

(** One tick: the answer of [server_utils.QueryMyPrometheus] is an
    argument. *)
Definition serverIOQueryRound (now : Time) (queryResult : error + QueryResult) (c : Cache)
    : Cache * list LogEntry * bool :=
  match queryResult with
  | inl err =>
      (c, [debugf "Failed to update IO stat: querying Prometheus responded with an error: %v" [err]], false)
  | inr qr =>
      if negb (String.eqb (ResultType qr) "vector") then
        (c, [debugf "Failed to update IO stat: Prometheus response returns %s type, expected a vector" [ResultType qr]], false)
      else
        let '(c', logs, panicked) := scrapeRows now (Result qr) c [] in
        if panicked then (c', logs, true)
        else (c', logs ++ [debugf "Successfully updated server IO stat. Received %d updates." []], false)
  end.

(** *** director_api.go: hookServerAdsCache *)

Definition strconv_FormatBool (b : bool) : string := if b then "true" else "false".

Definition serverCountLabels (serverAd : Advertisement) : Labels :=
  (Name (ad_ServerAd serverAd),
   ad_Type (ad_ServerAd serverAd),
   strconv_FormatBool (FromTopology (ad_ServerAd serverAd))).

(** A Prometheus gauge vector: the child for a label set is created at 0
    when [With] first names it. [Inc] and [Dec] add and subtract 1; the
    float64 of the client library holds these counts exactly, so the value
    is an integer here. *)
Definition Gauge_value (g : GaugeVec) (l : Labels) : Z := default 0 (g !! l).
Definition Gauge_Inc (l : Labels) (g : GaugeVec) : GaugeVec := <[l := Gauge_value g l + 1]> g.
Definition Gauge_Dec (l : Labels) (g : GaugeVec) : GaugeVec := <[l := Gauge_value g l - 1]> g.

(** What the two hooks write: the gauge and the [statUtils] map. The type
    of a [statUtils] entry is declared elsewhere. *)
Context {StatUtil : Type}.

Record HookState := mkHookState {
  PelicanDirectorServerCount : GaugeVec;
  statUtils : gmap string StatUtil
}.

(** The function given to [serverAds.OnInsertion]. *)
Definition onInsertionHook (key : string) (ad : Item) (h : HookState) : HookState :=
  let serverAd := item_value ad in
  mkHookState (Gauge_Inc (serverCountLabels serverAd) (PelicanDirectorServerCount h))
              (statUtils h).

(** The function given to [serverAds.OnEviction]. The goroutine that waits
    for the removed entry's stat routines works on the entry alone and is
    left out. *)
Definition onEvictionHook (key : string) (ad : Item) (h : HookState) : HookState :=
  let serverAd := item_value ad in
  mkHookState (Gauge_Dec (serverCountLabels serverAd) (PelicanDirectorServerCount h))
              (delete key (statUtils h)).

(** The ad store with the hooks of [hookServerAdsCache] registered. *)
Record AdStore := mkAdStore {
  serverAds : Cache;
  hookState : HookState
}.

Definition with_items (items : gmap string Item) (c : Cache) : Cache :=
  mkCache items (cache_disableTouchOnHit c) (cache_hits c) (cache_misses c).

(** ttlcache [Set] with the time to live that applies: an item under a key
    that is present is overwritten in place and no hook runs; otherwise a
    new item is created and handed to the insertion hooks. The hooks run in
    goroutines of their own; the model runs them at once, so it describes
    the store once the hooks that were started have finished. *)
Definition Cache_Set (now : Time) (key : string) (value : Advertisement) (ttl : Z)
    (s : AdStore) : AdStore :=
  let item := Item_touch now (mkItem value ttl 0) in
  match cache_items (serverAds s) !! key with
  | Some _ =>
      mkAdStore (with_items (<[key := item]> (cache_items (serverAds s))) (serverAds s))
                (hookState s)
  | None =>
      mkAdStore (with_items (<[key := item]> (cache_items (serverAds s))) (serverAds s))
                (onInsertionHook key item (hookState s))
  end.

(** ttlcache eviction of one key (expiry, [Delete], [DeleteAll]): the item
    is removed and handed to the eviction hooks. *)
Definition Cache_evict (key : string) (s : AdStore) : AdStore :=
  match cache_items (serverAds s) !! key with
  | Some item =>
      mkAdStore (with_items (delete key (cache_items (serverAds s))) (serverAds s))
                (onEvictionHook key item (hookState s))
  | None => s
  end.

(** The events the hooks see: an insertion creates an item under a key
    that had none, an eviction removes an item that is there. *)
Inductive storeStep : AdStore → AdStore → Prop :=
  | step_insertion now key value ttl s :
      cache_items (serverAds s) !! key = None →
      storeStep s (Cache_Set now key value ttl s)
  | step_eviction key s :
      is_Some (cache_items (serverAds s) !! key) →
      storeStep s (Cache_evict key s).

(** The number of stored advertisements that carry the labels [l]. *)
Definition storedWithLabels (l : Labels) (items : gmap string Item) : nat :=
  length (filter (λ kv, serverCountLabels (item_value kv.2) = l) (map_to_list items)).

(** The gauge agrees with the store on every label set. *)
Definition serverCountConsistent (s : AdStore) : Prop :=
  ∀ l, Gauge_value (PelicanDirectorServerCount (hookState s)) l
       = Z.of_nat (storedWithLabels l (cache_items (serverAds s))).

(** *** director_api.go: ConfigFilteredServers *)

(** The parameter [Director.FilteredServers]: whether it is set, and its
    value as a string slice. *)
Record FilteredServersParam := mkFilteredServersParam {
  Director_FilteredServers_IsSet : bool;
  Director_FilteredServers : list string
}.

(** The global [filteredServers] map is an argument and the result; the
    debug line prints the map, which is not rendered. *)
Definition ConfigFilteredServers (p : FilteredServersParam)
    (fs : gmap string filterType) : gmap string filterType * list LogEntry :=
  if Director_FilteredServers_IsSet p then
    (foldl (λ m sn, <[sn := permFiltered]> m) fs (Director_FilteredServers p),
     [Log DebugLevel
        "Loaded server downtime configuration from the Director.FilteredServers parameter:"
        []])
  else (fs, []).

(** *** director_api.go: listNamespacesFromOrigins, listAdvertisement *)

(** ttlcache [Items]: the items of the cache that have not expired. *)
Definition Cache_Items (now : Time) (c : Cache) : gmap string Item :=
  filter (λ kv, Item_isExpired now kv.2 = false) (cache_items c).

(** The range over [serverAds.Items()]; Go leaves its order unspecified,
    the order here is that of [map_to_list]. *)
Definition listNamespacesFromOrigins (now : Time) (c : Cache) : list NamespaceAdV2 :=
  foldl (λ namespaces kv,
           let ad := item_value kv.2 in
           if String.eqb (ad_Type (ad_ServerAd ad)) (ServerType_String OriginType)
           then namespaces ++ NamespaceAds ad
           else namespaces)
        [] (map_to_list (Cache_Items now c)).

(** The result is a slice of pointers in the source; here it holds the
    advertisements themselves. *)
Definition listAdvertisement (now : Time) (serverTypes : list ServerType) (c : Cache)
    : list Advertisement :=
  foldl (λ ads kv,
           let ad := item_value kv.2 in
           foldl (λ ads serverType,
                    if String.eqb (ad_Type (ad_ServerAd ad)) (ServerType_String serverType)
                    then ads ++ [ad]
                    else ads)
                 ads serverTypes)
        [] (map_to_list (Cache_Items now c)).

End Director.

(** ** metrics: computePrefix *)

Module metrics.

Record PathList := mkPathList { Paths : list string }.

(** [strings.Split(s, sep)] for a separator of one character. *)
Fixpoint splitFrom (sep : ascii) (cur s : string) : list string :=
  match s with
  | EmptyString => [cur]
  | String c rest =>
      if Ascii.eqb c sep then cur :: splitFrom sep "" rest
      else splitFrom sep (cur +:+ String c "") rest
  end.

Definition strings_Split (s : string) (sep : ascii) : list string := splitFrom sep "" s.

(** How many leading components of a mount match the segments of the
    object path one by one; a component matches the segment it equals, and
    ["*"] matches any segment. *)
Fixpoint matchDepth (segments paths : list string) : nat :=
  match paths, segments with
  | p :: paths', seg :: segments' =>
      if String.eqb p seg || String.eqb p "*" then S (matchDepth segments' paths')
      else O
  | _, _ => O
  end.

Definition joinSegments (segs : list string) : string :=
  foldl (λ acc seg, acc +:+ "/" +:+ seg) "" segs.

(** Modelled from the spec: the function is defined in a file of the
    metrics package that is not among the sources; only its test is.
    Section 4.7 asks, for mount components in which [""] is the root and
    ["*"] a wildcard, for the deepest consecutive match. The object path
    is cut at ["/"], so its first segment is the empty root segment; the
    depth of a mount is the number of its leading components that match;
    the result is made of the segments below the root that the deepest
    mount covers, and it is ["/"] when no mount gets past the root. *)
Definition computePrefix (inputPath : string) (monitorPaths : list PathList) : string :=
  let segments := strings_Split inputPath "/" in
  let depth := foldl (λ d pl, Nat.max d (matchDepth segments (Paths pl))) O monitorPaths in
  match depth with
  | O | S O => "/"
  | S (S n) => joinSegments (take (S n) (tail segments))
  end.

End metrics.

(** ** Sample data for the closed examples

    Here a URL is its text, and [time.Parse] is given by the table of the
    strings that the examples use: each is in the layout of the importer and
    its value is the instant Go computes for it. Every other string stands for
    one that does not fit the layout. *)

Definition sample_url_Parse (s : string) : error + string :=
  if String.prefix ":" s then inl "missing protocol scheme" else inr s.

Definition second : Z := 1000000000.

Definition sampleTimes : list (string * Time) :=
  [ ("Sep 1, 2026 00:00 AM UTC", 1788220800 * second);
    ("Sep 20, 2026 09:30 AM UTC", 1789896600 * second);
    ("Oct 1, 2026 00:00 AM UTC", 1790812800 * second);
    ("Dec 1, 2026 00:00 AM UTC", 1796083200 * second) ].

Fixpoint lookupTime (value : string) (table : list (string * Time)) : error + Time :=
  match table with
  | [] => inl ("cannot parse " +:+ value)
  | (s, t) :: table' => if String.eqb s value then inr t else lookupTime value table'
  end.

Definition sample_time_Parse (layout value : string) : error + Time :=
  if String.eqb layout timeLayout then lookupTime value sampleTimes
  else inl "unknown layout".

(** Oct 30, 2026 12:00 UTC *)
Definition sample_now : Time := 1793361600 * second.

(** A downtime of cache-A that is running at [sample_now]. *)
Definition sample_active_downtime : TopoServerDowntime :=
  mkTopoServerDowntime "cache-A"
    "Oct 1, 2026 00:00 AM UTC" "Dec 1, 2026 00:00 AM UTC"
    "Sep 20, 2026 09:30 AM UTC" "Sep 20, 2026 09:30 AM UTC"
    "SCHEDULED" "Outage (completely inaccessible)" "disk replacement".

(** ** The verdicts of the specification

    Definitions that follow the words of the specification, to be compared
    with the functions above. *)

(** The five states that exclude a server from routing. *)
Definition excludingStates : list filterType :=
  [permFiltered; tempFiltered; topoFiltered; serverFiltered; shutdownFiltered].

(** The six states of a filter entry. *)
Definition knownStates : list filterType := tempAllowed :: excludingStates.

(** What the combine function is to answer for the entry of a server: the
    entry's state as the reason when it is one of the excluding states, no
    exclusion for a missing entry, for [tempAllowed] and for a state that is
    not known. *)
Definition filterVerdict (entry : option filterType) : bool * filterType :=
  match entry with
  | None => (false, "")
  | Some state =>
      if bool_decide (state ∈ excludingStates) then (true, state)
      else if bool_decide (state = tempAllowed) then (false, tempAllowed)
      else (false, "")
  end.

(** A record of the feed is a currently-active downtime when its start and
    its end are read and the clock lies between them; these are the two
    tests of the importer ([Before] and [After] are strict). *)
Definition activeDowntime (time_Parse : string → string → error + Time)
    (now : Time) (d : TopoServerDowntime) : bool :=
  match time_Parse timeLayout (dt_StartTime d), time_Parse timeLayout (dt_EndTime d) with
  | inr start, inr end_ => Time_After end_ now && Time_Before start now
  | _, _ => false
  end.


(** An item with its I/O load erased: two items that agree on it differ in
    the [IOLoad] field of their advertisement at most. *)
Definition eraseIOLoad {URL : Type} (it : @Item URL) : @Item URL :=
  Item_SetIOLoad 0%float it.

(** The number of stored advertisements of the server [server_name] of
    type [server_type] whose topology flag is [from_topology]: the count
    that the gauge is to show, read off the fields of the advertisements. *)
Definition storedServers {URL : Type} (server_name server_type : string)
    (from_topology : bool) (items : gmap string (@Item URL)) : nat :=
  length (filter (λ kv, Name (ad_ServerAd (item_value kv.2)) = server_name
                        ∧ ad_Type (ad_ServerAd (item_value kv.2)) = server_type
                        ∧ FromTopology (ad_ServerAd (item_value kv.2)) = from_topology)
                 (map_to_list items)).

(** The gauge agrees with the store: the child with the labels
    server_name, server_type and from_topology shows the number of stored
    advertisements with this name, this type and this topology flag, the
    flag written as "true" or "false"; a child whose from_topology label is
    neither of the two shows zero. *)
Definition serverCountAgrees {URL StatUtil : Type} (s : @AdStore URL StatUtil) : Prop :=
  ∀ server_name server_type from_topology : string,
    Gauge_value (PelicanDirectorServerCount (hookState s))
                (server_name, server_type, from_topology)
    = if decide (from_topology = "true")
      then Z.of_nat (storedServers server_name server_type true (cache_items (serverAds s)))
      else if decide (from_topology = "false")
      then Z.of_nat (storedServers server_name server_type false (cache_items (serverAds s)))
      else 0.

(** ** More sample data *)






Definition sample_downtime_url : string := "https://topology.example/rgdowntime/xml".

(** A source whose request succeeds and whose clock shows [sample_now]. *)
Definition sample_source : DowntimeSource :=
  mkDowntimeSource sample_downtime_url (λ _, inr []) sample_now.

(** A source whose request fails. *)
Definition sample_source_down : DowntimeSource :=
  mkDowntimeSource sample_downtime_url (λ _, inl "connection refused") sample_now.

(** A decoder that yields the given feed. *)
Definition sample_unmarshal (info : TopoDowntimeInfo) (resp : list byte)
    : error + TopoDowntimeInfo := inr info.

Definition sample_feed_active : TopoDowntimeInfo :=
  mkTopoDowntimeInfo [sample_active_downtime] [].


(** cache-A was allowed by hand. *)
Definition sample_state_allowed : DowntimeState :=
  mkDowntimeState {[ "cache-A" := tempAllowed ]} ∅.

(** cache-A is filtered by an earlier import, origin-B by configuration. *)
Definition sample_state_filtered : DowntimeState :=
  mkDowntimeState {[ "cache-A" := topoFiltered; "origin-B" := permFiltered ]} ∅.

Inductive SampleServerType := SampleOrigin | SampleCache.

Definition SampleServerType_String (t : SampleServerType) : string :=
  match t with SampleOrigin => "Origin" | SampleCache => "Cache" end.

(** An ad store that keeps the recorded advertisements in a list. *)
Definition sample_recordAd (ad : @ServerAd string) (ns : list (@NamespaceAdV2 string))
    (s : list (@ServerAd string)) : list (@ServerAd string) := ad :: s.

Definition sample_topology_down : TopologySource :=
  mkTopologySource (inl "connection refused") false false false sample_source.

Definition sample_director_state : @DirectorState (list (@ServerAd string)) :=
  mkDirectorState sample_state_filtered [].

Definition sample_ad (name type : string) (fromTopology : bool) : @Advertisement string :=
  mkAdvertisement
    (mkServerAd name "" ("https://" +:+ name) "" type Capabilities_zero fromTopology 0%float)
    [].

Definition sample_empty_store : @AdStore string unit :=
  mkAdStore (mkCache ∅ false 0 0) (mkHookState ∅ ∅).

(** Two caches are inserted, then the first is evicted. *)
Definition sample_store : @AdStore string unit :=
  Cache_evict "https://cache-A"
    (Cache_Set 20 "https://cache-B" (sample_ad "cache-B" "Cache" true) 900
       (Cache_Set 10 "https://cache-A" (sample_ad "cache-A" "Cache" false) 900
          sample_empty_store)).

(** ** Further notions for the downtime import *)

(** The feed has a currently-active downtime for the server [s]. *)
Definition hasActiveDowntime (time_Parse : string → string → error + Time)
    (now : Time) (s : string) (feed : list TopoServerDowntime) : bool :=
  existsb (λ d, String.eqb (ResourceName d) s && activeDowntime time_Parse now d) feed.

(** What [markTopoFiltered] makes of an entry. *)
Definition marked (entry : option filterType) : option filterType :=
  match entry with
  | Some state => if String.eqb state tempAllowed then Some topoFiltered else Some state
  | None => Some topoFiltered
  end.

(** The entry of a server after an import, from its entry before and from
    whether the feed has a currently-active downtime for it. *)
Definition registryAfterImport (entry : option filterType) (active : bool)
    : option filterType :=
  match entry with
  | Some state =>
      if String.eqb state topoFiltered then (if active then Some topoFiltered else None)
      else if String.eqb state tempAllowed
           then (if active then Some topoFiltered else Some tempAllowed)
      else Some state
  | None => if active then Some topoFiltered else None
  end.

(** The row of the downtime table that a record of the feed gives, if it
    gives one: its four times are in the layout, it has not ended, and its
    class and severity are known. *)
Definition topologyRecord (time_Parse : string → string → error + Time)
    (now : Time) (d : TopoServerDowntime) : option Downtime :=
  match time_Parse timeLayout (dt_StartTime d), time_Parse timeLayout (dt_EndTime d) with
  | inr start, inr end_ =>
      if Time_After end_ now then
        match time_Parse timeLayout (dt_CreatedTime d),
              time_Parse timeLayout (dt_UpdateTime d),
              parseClass (dt_Class d), parseSeverity (dt_Severity d) with
        | inr created, inr updated, Some class, Some severity =>
            Some (mkDowntime (ResourceName d) class severity "topology"
                    (Time_UnixMilli start) (Time_UnixMilli end_) (dt_Description d)
                    (Time_UnixMilli created) (Time_UnixMilli updated))
        | _, _, _, _ => None
        end
      else None
  | _, _ => None
  end.

(** The rows that the feed gives for the server [s], in the order of the
    feed. *)
Definition topologyRecordsFor (time_Parse : string → string → error + Time)
    (now : Time) (s : string) (feed : list TopoServerDowntime) : list Downtime :=
  omap (topologyRecord time_Parse now)
       (filter (λ d, ResourceName d = s) feed).

(** ** Further notions for the import of advertisements *)

(** The capabilities that are forced on the advertisement of a cache. *)
Definition forcedCacheCaps : Capabilities := mkCapabilities true false false false false.

(** Every capability of [c] is a capability of [c']. *)
Definition capsLe (c c' : Capabilities) : Prop :=
  (PublicReads c = true → PublicReads c' = true)
  ∧ (Reads c = true → Reads c' = true)
  ∧ (Writes c = true → Writes c' = true)
  ∧ (Listings c = true → Listings c' = true)
  ∧ (DirectReads c = true → DirectReads c' = true).

(** [a'] is [a] after more of the manifest has been read: the same server
    fields but for the capabilities, which have not shrunk, and the
    namespaces of [a] followed by further ones. *)
Definition adExtends {URL : Type} (a a' : @Advertisement URL) : Prop :=
  set_Caps Capabilities_zero (ad_ServerAd a') = set_Caps Capabilities_zero (ad_ServerAd a)
  ∧ capsLe (Caps (ad_ServerAd a)) (Caps (ad_ServerAd a'))
  ∧ NamespaceAds a `prefix_of` NamespaceAds a'.

(** What holds of every entry of the two maps that the importer builds:
    the key is the URL of the advertisement, which is marked as coming from
    topology, has the type of its map and no load, and lists at least one
    namespace, each marked as coming from topology. *)
Definition topologyAdOk {URL : Type} (url_String : URL → string) (type : string)
    (key : string) (a : @Advertisement URL) : Prop :=
  key = url_String (ad_URL (ad_ServerAd a))
  ∧ FromTopology (ad_ServerAd a) = true
  ∧ ad_Type (ad_ServerAd a) = type
  ∧ IOLoad (ad_ServerAd a) = 0%float
  ∧ NamespaceAds a ≠ []
  ∧ Forall (λ n, ns_FromTopology n = true) (NamespaceAds a).

(** The text that [parseServerAdFromTopology] hands to [url.Parse] for the
    endpoint of a server. *)
Definition schemedEndpoint (server : TopoServer) : string :=
  if negb (strings_HasPrefix (Endpoint server) "http")
  then "http://" +:+ Endpoint server
  else Endpoint server.

(** An entry of the cache map: well formed, with the forced capabilities. *)
Definition cacheAdOk {URL : Type} (url_String : URL → string) (type : string)
    (key : string) (a : @Advertisement URL) : Prop :=
  topologyAdOk url_String type key a ∧ Caps (ad_ServerAd a) = forcedCacheCaps.

(** The endpoint of the server is not a URL for [url.Parse]. *)
Definition unparsableEndpoint {URL : Type} (url_Parse : string → error + URL)
    (server : TopoServer) : Prop :=
  ∃ err, url_Parse (schemedEndpoint server) = inl err.

(** ** Further notions for the listings and the scraper *)

(** How many entries of [types] have the type of the advertisement. *)
Definition typeMatches {URL ServerType : Type} (ServerType_String : ServerType → string)
    (types : list ServerType) (ad : @Advertisement URL) : nat :=
  length (filter (λ t, ad_Type (ad_ServerAd ad) = ServerType_String t) types).

(** The item under [key] is in the store and has not expired. *)
Definition liveItem {URL : Type} (now : Time) (c : @Cache URL) (key : string)
    (it : @Item URL) : Prop :=
  cache_items c !! key = Some it ∧ Item_isExpired now it = false.

(** The row has a sample whenever it names a server, so that reading its
    first sample is within bounds. *)
Definition rowHasSample (row : PromRow) : Prop :=
  ∀ s, Metric row !! "server_url" = Some (AnyString s) → Values row ≠ [].

(** ** Sample data for the further examples *)

(** A parser that, as [url.Parse] does for a host, rejects a text with a
    space in it. *)
Fixpoint hasSpace (s : string) : bool :=
  match s with
  | EmptyString => false
  | String c rest => Ascii.eqb c " " || hasSpace rest
  end.

Definition sample_url_Parse_strict (s : string) : error + string :=
  if hasSpace s then inl "invalid character in host name" else inr s.

Definition sample_ParseFloat (s : string) : error + float :=
  if String.eqb s "12.5" then inr 12.5%float else inl "invalid syntax".

(** Two namespaces served by the same origin and the same cache. *)
Definition sample_namespace (path : string) (writeback : string) : Namespace :=
  mkNamespace false (mkCredentialGeneration "" "" "" 0) [] writeback "" true path
    [mkTopoServer "origin-B" "origin-b.example:1094" ""]
    [mkTopoServer "cache-A" "cache-a.example:8000" ""].

Definition sample_manifest : TopologyNamespacesJSON :=
  mkTopologyNamespacesJSON
    [sample_namespace "/chtc" ""; sample_namespace "/ospool" "origin-b.example:1095"].

(** The manifest is fetched, the downtime feed is not. *)
Definition sample_topology_no_downtime : TopologySource :=
  mkTopologySource (inr sample_manifest) false false false sample_source_down.

(** Everything is switched off. *)
Definition sample_topology_off : TopologySource :=
  mkTopologySource (inr sample_manifest) true true true sample_source.

Definition sample_import_state : @ImportState string :=
  mkImportState ∅ {[ "http://origin-b.example:1094" := sample_ad "origin-B" "Origin" true ]}
                (TokenGen_zero "") [].

(** cache-A expires at 910, cache-B at 2000. *)
Definition sample_cache : @Cache string :=
  mkCache {[ "https://cache-A" := mkItem (sample_ad "cache-A" "Cache" false) 900 910;
             "https://cache-B" := mkItem (sample_ad "cache-B" "Cache" true) 900 2000 ]}
          false 0 0.

Definition sample_row (url value : string) : PromRow :=
  mkPromRow {[ "server_url" := AnyString url ]} [value].

Definition sample_query : QueryResult :=
  mkQueryResult "vector"
    ([sample_row "https://cache-A" "12.5"; sample_row "https://cache-C" "3"]
     ++ [sample_row "https://cache-B" "12.5"]).

(** ** Further notions: skipped namespaces *)

(** The namespace asks for a token and names a credential issuer that
    [url.Parse] rejects. *)
Definition namespaceSkipped {URL : Type} (url_Parse : string → error + URL)
    (ns : Namespace) : bool :=
  UseTokenOnRead ns
  && match url_Parse (cg_Issuer (CredentialGen ns)) with
     | inl _ => true
     | inr _ => false
     end.

(** The manifest without the namespaces that are skipped. *)
Definition withoutSkipped {URL : Type} (url_Parse : string → error + URL)
    (m : TopologyNamespacesJSON) : TopologyNamespacesJSON :=
  mkTopologyNamespacesJSON
    (filter (λ ns, namespaceSkipped url_Parse ns = false) (Namespaces m)).

(** The source [src] with another answer to the fetch of the topology
    JSON. *)
Definition withTopologyJSON (json : error + TopologyNamespacesJSON) (src : TopologySource)
    : TopologySource :=
  mkTopologySource json (Topology_DisableDowntime src) (Topology_DisableOrigins src)
    (Topology_DisableCaches src) (downtimeSource src).

(** A manifest whose second namespace asks for a token from an issuer with
    a space in its URL. *)
Definition sample_manifest_bad_issuer : TopologyNamespacesJSON :=
  mkTopologyNamespacesJSON
    [sample_namespace "/chtc" "";
     mkNamespace true (mkCredentialGeneration "https://bad issuer" "OAuth2" "" 3) [] "" ""
       true "/protected"
       [mkTopoServer "origin-P" "origin-p.example:1094" ""] []].

(** The instants at which [sample_active_downtime] begins and ends. *)
Definition sample_start : Time := 1790812800 * second.
Definition sample_end : Time := 1796083200 * second.

Definition sample_topology_bad_issuer : TopologySource :=
  mkTopologySource (inr sample_manifest_bad_issuer) true false false sample_source.

(** ** Properties *)

Section Properties.

#[local] Set Default Proof Using "Type".

(** Drop the variables of the section that the goal does not mention, so
    that no proof search picks one up. *)
Ltac clear_unused := repeat match goal with x : _ |- _ => clear x end.

Context {URL : Type}.
Variable url_zero : URL.
Variable url_Parse : string → error + URL.
Variable url_String : URL → string.
Context {ServerType : Type}.
Variables OriginType CacheType : ServerType.
Variable ServerType_String : ServerType → string.
Variable time_Parse : string → string → error + Time.
Variable xml_Unmarshal : list byte → error + TopoDowntimeInfo.
Context {AdState : Type}.
Variable recordAd : @ServerAd URL → list (@NamespaceAdV2 URL) → AdState → AdState.
Variable strconv_ParseFloat : string → error + float.
Context {StatUtil : Type}.

Local Abbreviation parseServerAd :=
  (parseServerAdFromTopology url_zero url_Parse CacheType ServerType_String).
Local Abbreviation addServer :=
  (addTopologyServer url_zero url_Parse url_String CacheType ServerType_String).

(** *** Capability merge *)

(** C1. When two advertisements meet under one server URL,
    [consolidateDupServerAd] returns an advertisement in which each of the
    five capabilities is the OR of the capability in the two
    advertisements, and every other field is that of the existing (first
    seen) advertisement. *)
Theorem consolidateDupServerAd_or_caps (newAd existingAd : @ServerAd URL) :
  let ad := consolidateDupServerAd newAd existingAd in
  PublicReads (Caps ad) = PublicReads (Caps existingAd) || PublicReads (Caps newAd)
  ∧ Reads (Caps ad) = Reads (Caps existingAd) || Reads (Caps newAd)
  ∧ Writes (Caps ad) = Writes (Caps existingAd) || Writes (Caps newAd)
  ∧ Listings (Caps ad) = Listings (Caps existingAd) || Listings (Caps newAd)
  ∧ DirectReads (Caps ad) = DirectReads (Caps existingAd) || DirectReads (Caps newAd)
  ∧ Name ad = Name existingAd
  ∧ AuthURL ad = AuthURL existingAd
  ∧ ad_URL ad = ad_URL existingAd
  ∧ WebURL ad = WebURL existingAd
  ∧ ad_Type ad = ad_Type existingAd
  ∧ FromTopology ad = FromTopology existingAd
  ∧ IOLoad ad = IOLoad existingAd.
Proof. cbv zeta. unfold consolidateDupServerAd, set_Caps. simpl. repeat split. Qed.

(** The importer applies the merge exactly when the URL of a parsed server
    is already a key of the map it is building. *)
Lemma addTopologyServer_collision serverType caps nsAd adMap logs server existingAd :
  let serverAd := (parseServerAd server serverType caps).1 in
  adMap !! url_String (ad_URL serverAd) = Some existingAd →
  (addServer serverType caps nsAd (adMap, logs) server).1
    !! url_String (ad_URL serverAd)
  = Some (mkAdvertisement (consolidateDupServerAd serverAd (ad_ServerAd existingAd))
                          (NamespaceAds existingAd ++ [nsAd])).
Proof.
  cbv zeta. intros Hin. unfold addTopologyServer.
  destruct (parseServerAdFromTopology _ _ _ _ server serverType caps) as [serverAd l].
  simpl in *. rewrite Hin. simpl. apply lookup_insert_eq.
Qed.

(** *** Advertisements made from the manifest *)

(** C9. The advertisement made for a server listed as a cache has Writes,
    Listings and DirectReads off and PublicReads on, whatever capabilities
    are passed in; every advertisement made from the manifest, of whatever
    server type, has FromTopology set and an I/O load of 0.0. *)
Theorem parseServerAdFromTopology_forced_caps
    (server : TopoServer) (serverType : ServerType) (caps : Capabilities) :
  let cacheAd := (parseServerAd server CacheType caps).1 in
  let ad := (parseServerAd server serverType caps).1 in
  Writes (Caps cacheAd) = false
  ∧ Listings (Caps cacheAd) = false
  ∧ DirectReads (Caps cacheAd) = false
  ∧ PublicReads (Caps cacheAd) = true
  ∧ FromTopology ad = true
  ∧ IOLoad ad = 0%float.
Proof.
  cbv zeta. unfold parseServerAdFromTopology.
  rewrite String.eqb_refl.
  repeat match goal with
         | |- context [match ?x with _ => _ end] => destruct x
         end; simpl; repeat split.
Qed.

(** *** The filter registry *)

Lemma excludingStates_elem (state : filterType) :
  state ∈ excludingStates ↔
  state = permFiltered ∨ state = tempFiltered ∨ state = topoFiltered
  ∨ state = serverFiltered ∨ state = shutdownFiltered.
Proof.
  clear_unused.
  unfold excludingStates. rewrite !elem_of_cons, elem_of_nil. tauto.
Qed.

Lemma knownStates_elem (state : filterType) :
  state ∈ knownStates ↔ state = tempAllowed ∨ state ∈ excludingStates.
Proof. unfold knownStates. apply elem_of_cons. Qed.

(** [checkFilter] on a map that holds [state] for the server. *)
Lemma checkFilter_entry (fs : gmap string filterType) serverName state :
  fs !! serverName = Some state →
  (state ∈ excludingStates ∧ checkFilter fs serverName = ((true, state), []))
  ∨ (state = tempAllowed ∧ checkFilter fs serverName = ((false, tempAllowed), []))
  ∨ ((state ∉ knownStates)
     ∧ checkFilter fs serverName
       = ((false, ""), [Log ErrorLevel "Unknown filterType: " [state]])).
Proof.
  clear_unused.
  intros Hfs. unfold checkFilter. rewrite Hfs.
  destruct (String.eqb_spec state permFiltered) as [->|H1].
  { left. split; [apply excludingStates_elem; tauto | done]. }
  destruct (String.eqb_spec state tempFiltered) as [->|H2].
  { left. split; [apply excludingStates_elem; tauto | done]. }
  destruct (String.eqb_spec state topoFiltered) as [->|H3].
  { left. split; [apply excludingStates_elem; tauto | done]. }
  destruct (String.eqb_spec state serverFiltered) as [->|H4].
  { left. split; [apply excludingStates_elem; tauto | done]. }
  destruct (String.eqb_spec state shutdownFiltered) as [->|H5].
  { left. split; [apply excludingStates_elem; tauto | done]. }
  destruct (String.eqb_spec state tempAllowed) as [->|H6].
  { right; left. done. }
  right; right. split; [|done].
  rewrite knownStates_elem, excludingStates_elem. tauto.
Qed.

Lemma tempAllowed_not_excluding : tempAllowed ∉ excludingStates.
Proof. rewrite excludingStates_elem. unfold tempAllowed. intros H. decompose [or] H; discriminate. Qed.

(** C4. The answer of [checkFilter] is a function of the entry that the
    map holds for the server: it excludes, with the entry's state as the
    reason, exactly when the entry is one of the five excluding states; it
    does not exclude when there is no entry, when the entry is
    [tempAllowed], or when the entry is not a known state, and this last
    case is the one in which an error is logged. *)
Theorem checkFilter_verdict (fs : gmap string filterType) (serverName : string) :
  (checkFilter fs serverName).1 = filterVerdict (fs !! serverName)
  ∧ ((checkFilter fs serverName).1.1 = true
     ↔ ∃ state, fs !! serverName = Some state ∧ state ∈ excludingStates)
  ∧ ((checkFilter fs serverName).2 ≠ []
     ↔ ∃ state, fs !! serverName = Some state ∧ (state ∉ knownStates)).
Proof.
  clear_unused.
  destruct (fs !! serverName) as [state|] eqn:Hfs.
  - destruct (checkFilter_entry fs serverName state Hfs)
      as [[Hin ->]|[[-> ->]|[Hout ->]]]; unfold filterVerdict; cbn [fst snd].
    + rewrite bool_decide_eq_true_2 by done. split; [done|]. split.
      * split; [eauto|done].
      * split; [done|]. intros (st & [= <-] & Hn). exfalso. apply Hn.
        apply knownStates_elem. by right.
    + rewrite bool_decide_eq_false_2 by apply tempAllowed_not_excluding.
      rewrite bool_decide_eq_true_2 by done. split; [done|]. split.
      * split; [done|]. intros (st & [= <-] & Hin).
        by apply tempAllowed_not_excluding in Hin.
      * split; [done|]. intros (st & [= <-] & Hn). exfalso. apply Hn.
        apply knownStates_elem. by left.
    + rewrite knownStates_elem in Hout.
      rewrite bool_decide_eq_false_2 by tauto.
      rewrite bool_decide_eq_false_2 by tauto. split; [done|]. split.
      * split; [done|]. intros (st & [= <-] & Hin). tauto.
      * split; [|done]. intros _. exists state. split; [done|].
        rewrite knownStates_elem. tauto.
  - unfold checkFilter. rewrite Hfs. simpl. split; [done|]. split.
    + split; [done|]. by intros (st & ? & _).
    + split; [done|]. by intros (st & ? & _).
Qed.

(** *** The downtime import *)

Local Abbreviation step := (downtimeStep time_Parse).
Local Abbreviation active := (activeDowntime time_Parse).
Local Abbreviation updateDowntime :=
  (updateDowntimeFromTopology url_Parse time_Parse xml_Unmarshal).

Lemma purgeTopoFiltered_lookup (fs : gmap string filterType) s state :
  purgeTopoFiltered fs !! s = Some state ↔ fs !! s = Some state ∧ state ≠ topoFiltered.
Proof. unfold purgeTopoFiltered. by rewrite map_lookup_filter_Some. Qed.

Lemma markTopoFiltered_ne (fs : gmap string filterType) name s :
  name ≠ s → markTopoFiltered name fs !! s = fs !! s.
Proof.
  intros Hne. unfold markTopoFiltered.
  destruct (fs !! name) as [state|]; [destruct (negb _)|]; try done;
    by rewrite lookup_insert_ne.
Qed.

Lemma markTopoFiltered_eq (fs : gmap string filterType) name :
  markTopoFiltered name fs !! name =
  match fs !! name with
  | Some state => if String.eqb state tempAllowed then Some topoFiltered else Some state
  | None => Some topoFiltered
  end.
Proof.
  unfold markTopoFiltered.
  destruct (fs !! name) as [state|] eqn:Hfs; [|by rewrite lookup_insert_eq].
  destruct (String.eqb state tempAllowed); simpl; [by rewrite lookup_insert_eq|done].
Qed.

(** The registry after one iteration: only a currently-active record
    touches it, and it does so through [markTopoFiltered]. *)
Lemma downtimeStep_registry now fs latest logs d :
  (step now (fs, latest, logs) d).1.1
  = if active now d then markTopoFiltered (ResourceName d) fs else fs.
Proof.
  unfold downtimeStep, activeDowntime.
  destruct (time_Parse timeLayout (dt_StartTime d)) as [e|start]; [done|].
  destruct (time_Parse timeLayout (dt_EndTime d)) as [e|end_]; [done|].
  destruct (Time_After end_ now); [|done]. simpl.
  repeat match goal with
         | |- context [match ?x with _ => _ end] => destruct x; simpl; try done
         end.
Qed.


Lemma downtimeStep_keeps_topoFiltered now acc d s :
  acc.1.1 !! s = Some topoFiltered → (step now acc d).1.1 !! s = Some topoFiltered.
Proof.
  destruct acc as [[fs latest] logs]. cbn [fst]. intros Hs. rewrite downtimeStep_registry.
  destruct (active now d); [|done].
  destruct (decide (ResourceName d = s)) as [<-|Hne].
  - by rewrite markTopoFiltered_eq, Hs.
  - by rewrite markTopoFiltered_ne.
Qed.

Lemma foldl_keeps_topoFiltered now ds acc s :
  acc.1.1 !! s = Some topoFiltered →
  (foldl (step now) acc ds).1.1 !! s = Some topoFiltered.
Proof.
  revert acc. induction ds as [|d ds IH]; intros acc Hs; [done|].
  cbn [foldl]. apply IH. by apply downtimeStep_keeps_topoFiltered.
Qed.

(** An entry that is [tempAllowed] or [topoFiltered] stays one of the two. *)
Lemma foldl_tempAllowed_or_topoFiltered now ds acc s :
  acc.1.1 !! s = Some tempAllowed ∨ acc.1.1 !! s = Some topoFiltered →
  (foldl (step now) acc ds).1.1 !! s = Some tempAllowed
  ∨ (foldl (step now) acc ds).1.1 !! s = Some topoFiltered.
Proof.
  revert acc. induction ds as [|d ds IH]; intros acc Hs; [done|].
  cbn [foldl]. apply IH. destruct Hs as [Hs|Hs].
  - destruct acc as [[fs latest] logs]. cbn [fst] in Hs. rewrite downtimeStep_registry.
    destruct (active now d); [|by left].
    destruct (decide (ResourceName d = s)) as [<-|Hne].
    + right. by rewrite markTopoFiltered_eq, Hs.
    + left. by rewrite markTopoFiltered_ne.
  - right. by apply downtimeStep_keeps_topoFiltered.
Qed.



(** The registry that a run leaves once the feed has been fetched. *)
Lemma applyDowntimeInfo_registry now info st :
  filteredServers (applyDowntimeInfo time_Parse now info st).1
  = (foldl (step now) (purgeTopoFiltered (filteredServers st), ∅, [])
           (CurrentDowntimes info ++ FutureDowntimes info)).1.1.
Proof.
  unfold applyDowntimeInfo.
  by destruct (foldl _ _ _) as [[fs latest] logs].
Qed.

Lemma updateDowntime_fetched src st u resp info :
  url_Parse (Federation_TopologyDowntimeUrl src) = inr u →
  MakeRequest src (Federation_TopologyDowntimeUrl src) = inr resp →
  xml_Unmarshal resp = inr info →
  updateDowntime src st
  = (None, (applyDowntimeInfo time_Parse (time_Now src) info st).1,
     (applyDowntimeInfo time_Parse (time_Now src) info st).2).
Proof.
  intros Hu Hr Hx. unfold updateDowntimeFromTopology. rewrite Hu, Hr, Hx.
  by destruct (applyDowntimeInfo _ _ _ _).
Qed.

(** C2, as the code has it. When the registry holds [tempAllowed] for a
    server and the fetched feed has a currently-active downtime for it, the
    import replaces the entry by [topoFiltered], and [checkFilter] then
    reports the server as filtered with that reason: [tempAllowed] gives way
    to a topology downtime. *)
Theorem tempAllowed_replaced_by_active_downtime src st u resp info d :
  url_Parse (Federation_TopologyDowntimeUrl src) = inr u →
  MakeRequest src (Federation_TopologyDowntimeUrl src) = inr resp →
  xml_Unmarshal resp = inr info →
  filteredServers st !! ResourceName d = Some tempAllowed →
  d ∈ CurrentDowntimes info ++ FutureDowntimes info →
  active (time_Now src) d = true →
  let st' := (updateDowntime src st).1.2 in
  filteredServers st' !! ResourceName d = Some topoFiltered
  ∧ (checkFilter (filteredServers st') (ResourceName d)).1 = (true, topoFiltered).
Proof.
  intros Hu Hr Hx Hallowed Hin Hact. cbv zeta.
  rewrite (updateDowntime_fetched _ _ _ _ _ Hu Hr Hx). cbn [fst snd].
  assert (filteredServers (applyDowntimeInfo time_Parse (time_Now src) info st).1
            !! ResourceName d = Some topoFiltered) as Hres.
  { rewrite applyDowntimeInfo_registry.
    apply list_elem_of_split in Hin as (l1 & l2 & Heq).
    rewrite Heq, foldl_app. cbn [foldl].
    apply foldl_keeps_topoFiltered.
    pose proof (foldl_tempAllowed_or_topoFiltered (time_Now src) l1
                  (purgeTopoFiltered (filteredServers st), ∅, []) (ResourceName d)) as H1.
    destruct (foldl (step (time_Now src)) _ l1) as [[fs latest] logs].
    rewrite downtimeStep_registry, Hact, markTopoFiltered_eq. cbn [fst] in H1.
    destruct H1 as [->| ->]; [|done|done].
    left. apply purgeTopoFiltered_lookup. done. }
  split; [done|]. unfold checkFilter. by rewrite Hres.
Qed.



(** C7. A failed fetch leaves the state as it was. When the topology JSON
    cannot be fetched, [AdvertiseOSDF] returns an error and the director
    state (filter registry, downtime table, ad store) is the one it was
    given. When the downtime URL is invalid, the request fails or the XML
    cannot be decoded, [updateDowntimeFromTopology] returns an error and
    the registry and the downtime table are the ones it was given; no run
    that ends in an error has changed them. *)
Theorem topology_import_failure_keeps_state :
  (∀ src (st : @DirectorState AdState) err,
      GetTopologyJSON src = inl err →
      ∃ e, AdvertiseOSDF url_zero url_Parse url_String OriginType CacheType
             ServerType_String time_Parse xml_Unmarshal recordAd src st
           = (Some e, st, []))
  ∧ (∀ src st,
      (∃ err, url_Parse (Federation_TopologyDowntimeUrl src) = inl err)
      ∨ (∃ err, MakeRequest src (Federation_TopologyDowntimeUrl src) = inl err)
      ∨ (∃ resp err, MakeRequest src (Federation_TopologyDowntimeUrl src) = inr resp
                     ∧ xml_Unmarshal resp = inl err) →
      ∃ e, updateDowntime src st = (Some e, st, []))
  ∧ (∀ src st e,
      (updateDowntime src st).1.1 = Some e → (updateDowntime src st).1.2 = st).
Proof.
  split; [|split].
  - intros src st err Herr. unfold AdvertiseOSDF. rewrite Herr. eauto.
  - intros src st Hfail. unfold updateDowntimeFromTopology.
    destruct (url_Parse (Federation_TopologyDowntimeUrl src)) as [e|u]; [eauto|].
    destruct (MakeRequest src (Federation_TopologyDowntimeUrl src)) as [e|resp]; [eauto|].
    destruct (xml_Unmarshal resp) as [e|info] eqn:Hx; [eauto|].
    destruct Hfail as [[e H]|[[e H]|(resp' & e & [= <-] & H)]]; congruence.
  - intros src st e. unfold updateDowntimeFromTopology.
    destruct (url_Parse (Federation_TopologyDowntimeUrl src)) as [e'|u]; [done|].
    destruct (MakeRequest src (Federation_TopologyDowntimeUrl src)) as [e'|resp]; [done|].
    destruct (xml_Unmarshal resp) as [e'|info]; [done|].
    by destruct (applyDowntimeInfo _ _ _ _).
Qed.

(** *** The I/O load scraper and the ad store *)

Local Abbreviation round := (serverIOQueryRound strconv_ParseFloat).
Local Abbreviation rows := (scrapeRows strconv_ParseFloat).

(** A [Get] with touching disabled returns the stored item and leaves every
    item of the store as it is, whatever the option of the cache. *)
Lemma Cache_Get_no_touch now key (c : @Cache URL) :
  cache_items (Cache_Get now key [WithDisableTouchOnHit] c).2 = cache_items c
  ∧ ∀ it, (Cache_Get now key [WithDisableTouchOnHit] c).1 = Some it →
          cache_items c !! key = Some it.
Proof.
  unfold Cache_Get. cbn [foldl negb].
  destruct (cache_items c !! key) as [it|] eqn:Hit; [|done].
  destruct (Item_isExpired now it); [done|]. cbn [fst snd cache_items].
  split; [by apply insert_id | by intros ? [= <-]].
Qed.

Lemma eraseIOLoad_alter load key (items : gmap string (@Item URL)) :
  eraseIOLoad <$> alter (Item_SetIOLoad load) key items = eraseIOLoad <$> items.
Proof.
  apply map_eq. intros k. rewrite !lookup_fmap, lookup_alter.
  case_decide as Hk; [subst k|done]. by destruct (items !! key).
Qed.

Lemma scrapeRows_erase now rs (c : @Cache URL) logs :
  eraseIOLoad <$> cache_items (rows now rs c logs).1.1 = eraseIOLoad <$> cache_items c.
Proof.
  revert c logs. induction rs as [|result rest IH]; intros c logs; [done|].
  cbn [scrapeRows].
  destruct (Metric result !! "server_url") as [[serverUrl|]|]; [|apply IH|apply IH].
  destruct (Values result) as [|ioDerivStr ?]; [done|].
  destruct (String.eqb ioDerivStr ""); [apply IH|].
  destruct (strconv_ParseFloat ioDerivStr) as [e|ioDeriv]; [apply IH|].
  destruct (Cache_Get_no_touch now serverUrl c) as [Hitems _].
  destruct (Cache_Get now serverUrl [WithDisableTouchOnHit] c) as [[it|] c'];
    cbn [snd] in Hitems; rewrite IH; cbn [cache_items].
  - by rewrite eraseIOLoad_alter, Hitems.
  - by rewrite Hitems.
Qed.

(** C8. The scraper reads the ad store with touching disabled, so a round
    of the scraper changes no item but for the I/O load of its
    advertisement: the store has the same keys, and under every key the
    same expiry and time to live as before. *)
Theorem scraper_keeps_expiry now queryResult (c : @Cache URL) :
  let c' := (round now queryResult c).1.1 in
  eraseIOLoad <$> cache_items c' = eraseIOLoad <$> cache_items c
  ∧ (∀ key, cache_items c' !! key = None ↔ cache_items c !! key = None)
  ∧ (∀ key it it', cache_items c !! key = Some it → cache_items c' !! key = Some it' →
       item_expiresAt it' = item_expiresAt it ∧ item_ttl it' = item_ttl it
       ∧ NamespaceAds (item_value it') = NamespaceAds (item_value it)
       ∧ let ad := ad_ServerAd (item_value it) in
         let ad' := ad_ServerAd (item_value it') in
         Name ad' = Name ad ∧ AuthURL ad' = AuthURL ad ∧ ad_URL ad' = ad_URL ad
         ∧ WebURL ad' = WebURL ad ∧ ad_Type ad' = ad_Type ad ∧ Caps ad' = Caps ad
         ∧ FromTopology ad' = FromTopology ad).
Proof.
  clear_unused.
  cbv zeta.
  assert (eraseIOLoad <$> cache_items (round now queryResult c).1.1
          = eraseIOLoad <$> cache_items c) as Heq.
  { unfold serverIOQueryRound. destruct queryResult as [err|qr]; [done|].
    destruct (negb _); [done|].
    pose proof (scrapeRows_erase now (Result qr) c []) as H.
    destruct (rows now (Result qr) c []) as [[c' logs] panicked].
    by destruct panicked. }
  split; [done|]. split.
  - intros key. apply (f_equal (λ m, m !! key)) in Heq.
    rewrite !lookup_fmap in Heq.
    destruct (cache_items _ !! key), (cache_items c !! key); naive_solver.
  - intros key it it' Hit Hit'. apply (f_equal (λ m, m !! key)) in Heq.
    rewrite !lookup_fmap, Hit, Hit' in Heq. injection Heq as Heq.
    unfold eraseIOLoad, Item_SetIOLoad, SetIOLoad in Heq.
    by simplify_eq.
Qed.

(** *** The server count metric *)

Lemma storedWithLabels_insert l key it (items : gmap string (@Item URL)) :
  items !! key = None →
  storedWithLabels l (<[key := it]> items)
  = if decide (serverCountLabels (item_value it) = l)
    then S (storedWithLabels l items) else storedWithLabels l items.
Proof.
  intros Hnone. unfold storedWithLabels.
  rewrite (map_to_list_insert items key it Hnone), filter_cons. cbn [snd].
  by case_decide.
Qed.

Lemma storedWithLabels_delete l key it (items : gmap string (@Item URL)) :
  items !! key = Some it →
  storedWithLabels l items
  = if decide (serverCountLabels (item_value it) = l)
    then S (storedWithLabels l (delete key items))
    else storedWithLabels l (delete key items).
Proof.
  intros Hsome. unfold storedWithLabels.
  rewrite <-(map_to_list_delete items key it Hsome), filter_cons. cbn [snd].
  by case_decide.
Qed.

Lemma Gauge_Inc_value (l l' : Labels) (g : GaugeVec) :
  Gauge_value (Gauge_Inc l g) l'
  = Gauge_value g l' + (if decide (l = l') then 1 else 0).
Proof.
  unfold Gauge_Inc, Gauge_value at 1. rewrite lookup_insert.
  destruct (decide (l = l')) as [->|]; unfold Gauge_value; simpl; lia.
Qed.

Lemma Gauge_Dec_value (l l' : Labels) (g : GaugeVec) :
  Gauge_value (Gauge_Dec l g) l'
  = Gauge_value g l' - (if decide (l = l') then 1 else 0).
Proof.
  unfold Gauge_Dec, Gauge_value at 1. rewrite lookup_insert.
  destruct (decide (l = l')) as [->|]; unfold Gauge_value; simpl; lia.
Qed.

Lemma item_value_touch now (it : @Item URL) : item_value (Item_touch now it) = item_value it.
Proof. unfold Item_touch. by destruct (item_ttl it <=? 0). Qed.

Lemma storeStep_consistent (s s' : @AdStore URL StatUtil) :
  storeStep s s' → serverCountConsistent s → serverCountConsistent s'.
Proof.
  intros Hstep Hs l. specialize (Hs l). destruct Hstep as [now key value ttl s Hnone|key s [it Hit]].
  - unfold Cache_Set. rewrite Hnone.
    cbn [hookState serverAds cache_items with_items onInsertionHook
         PelicanDirectorServerCount].
    rewrite Gauge_Inc_value, Hs, (storedWithLabels_insert _ _ _ _ Hnone).
    rewrite item_value_touch. cbn [item_value]. case_decide; lia.
  - unfold Cache_evict. rewrite Hit.
    cbn [hookState serverAds cache_items with_items onEvictionHook
         PelicanDirectorServerCount].
    rewrite Gauge_Dec_value, Hs, (storedWithLabels_delete _ _ _ _ Hit).
    case_decide; lia.
Qed.

(** The labels the hooks give to the gauge are the name, the type and the
    topology flag of the advertisement, the flag written as "true" or
    "false". *)
Lemma serverCountLabels_eq (ad : @Advertisement URL) server_name server_type from_topology :
  serverCountLabels ad = (server_name, server_type, from_topology)
  ↔ Name (ad_ServerAd ad) = server_name
    ∧ ad_Type (ad_ServerAd ad) = server_type
    ∧ (if FromTopology (ad_ServerAd ad) then "true" else "false") = from_topology.
Proof.
  clear_unused.
  unfold serverCountLabels, strconv_FormatBool. split.
  - by intros [= -> -> <-].
  - by intros (-> & -> & <-).
Qed.

Lemma filter_none {A} (P : A → Prop) `{!∀ x, Decision (P x)} (l : list A) :
  (∀ x, ¬ P x) → filter P l = [].
Proof.
  clear_unused.
  intros HP. induction l as [|x l IH]; [done|].
  rewrite filter_cons. by destruct (decide (P x)) as [HPx|_]; [destruct (HP x)|].
Qed.

(** The count by label set is the count by name, type and flag. *)
Lemma storedWithLabels_storedServers server_name server_type from_topology
    (items : gmap string (@Item URL)) :
  storedWithLabels (server_name, server_type, from_topology) items
  = if decide (from_topology = "true") then storedServers server_name server_type true items
    else if decide (from_topology = "false")
    then storedServers server_name server_type false items
    else 0%nat.
Proof.
  clear_unused.
  assert (∀ (ad : @Advertisement URL) (b : bool),
            serverCountLabels ad = (server_name, server_type, if b then "true" else "false")
            ↔ Name (ad_ServerAd ad) = server_name ∧ ad_Type (ad_ServerAd ad) = server_type
              ∧ FromTopology (ad_ServerAd ad) = b) as Hflag.
  { intros ad b. rewrite serverCountLabels_eq.
    split; intros (Hn & Ht & Hf); (split; [done|split; [done|]]).
    - by destruct (FromTopology (ad_ServerAd ad)), b.
    - by rewrite Hf. }
  unfold storedWithLabels, storedServers.
  destruct (decide (from_topology = "true")) as [->|Htrue];
    [|destruct (decide (from_topology = "false")) as [->|Hfalse]].
  - f_equal. apply list_filter_iff. intros kv. apply (Hflag _ true).
  - f_equal. apply list_filter_iff. intros kv. apply (Hflag _ false).
  - rewrite filter_none; [done|]. intros kv. rewrite serverCountLabels_eq.
    intros (_ & _ & Hf). by destruct (FromTopology _).
Qed.

Lemma serverCountAgrees_consistent (s : @AdStore URL StatUtil) :
  serverCountAgrees s ↔ serverCountConsistent s.
Proof.
  clear_unused.
  unfold serverCountAgrees, serverCountConsistent. split.
  - intros Hs [[server_name server_type] from_topology].
    rewrite Hs, storedWithLabels_storedServers. by repeat case_decide.
  - intros Hs server_name server_type from_topology.
    rewrite Hs, storedWithLabels_storedServers. by repeat case_decide.
Qed.

(** C10. The insertion hook adds one to the gauge child whose labels
    server_name, server_type and from_topology are the name, the type and
    the topology flag (as "true" or "false") of the inserted advertisement,
    and to no other child; the eviction hook takes one from the child whose
    labels are the name, the type and the topology flag of the evicted
    advertisement, and from no other. Hence, from a state in which the gauge
    agrees with the store, every sequence of insertions and evictions leads
    to a state in which, for every name, type and flag, the child with these
    labels shows the number of stored advertisements with this name, this
    type and this flag. *)
Theorem server_count_tracks_store :
  (∀ key (it : @Item URL) (h : @HookState StatUtil) server_name server_type from_topology,
      let serverAd := ad_ServerAd (item_value it) in
      Gauge_value (PelicanDirectorServerCount (onInsertionHook key it h))
                  (server_name, server_type, from_topology)
      = Gauge_value (PelicanDirectorServerCount h) (server_name, server_type, from_topology)
        + (if decide (Name serverAd = server_name ∧ ad_Type serverAd = server_type
                      ∧ (if FromTopology serverAd then "true" else "false") = from_topology)
           then 1 else 0))
  ∧ (∀ key (it : @Item URL) (h : @HookState StatUtil) server_name server_type from_topology,
      let serverAd := ad_ServerAd (item_value it) in
      Gauge_value (PelicanDirectorServerCount (onEvictionHook key it h))
                  (server_name, server_type, from_topology)
      = Gauge_value (PelicanDirectorServerCount h) (server_name, server_type, from_topology)
        - (if decide (Name serverAd = server_name ∧ ad_Type serverAd = server_type
                      ∧ (if FromTopology serverAd then "true" else "false") = from_topology)
           then 1 else 0))
  ∧ (∀ s s' : @AdStore URL StatUtil,
      serverCountAgrees s → rtc storeStep s s' → serverCountAgrees s').
Proof.
  clear_unused.
  split; [|split].
  - intros key it h server_name server_type from_topology. cbv zeta.
    cbn [onInsertionHook PelicanDirectorServerCount].
    rewrite Gauge_Inc_value. f_equal.
    pose proof (serverCountLabels_eq (item_value it) server_name server_type from_topology).
    repeat case_decide; tauto.
  - intros key it h server_name server_type from_topology. cbv zeta.
    cbn [onEvictionHook PelicanDirectorServerCount].
    rewrite Gauge_Dec_value. f_equal.
    pose proof (serverCountLabels_eq (item_value it) server_name server_type from_topology).
    repeat case_decide; tauto.
  - intros s s' Hs Hrun. apply serverCountAgrees_consistent.
    apply serverCountAgrees_consistent in Hs.
    induction Hrun as [s|s s1 s' Hstep _ IH]; [done|].
    apply IH. by apply (storeStep_consistent s).
Qed.

(** *** More on the downtime import *)

Local Abbreviation hasActive := (hasActiveDowntime time_Parse).
Local Abbreviation recordOf := (topologyRecord time_Parse).
Local Abbreviation recordsFor := (topologyRecordsFor time_Parse).

Lemma marked_idem entry : marked (marked entry) = marked entry.
Proof.
  clear_unused. destruct entry as [state|]; [|done]. unfold marked.
  destruct (String.eqb state tempAllowed) eqn:H; [done|]. by rewrite H.
Qed.

Lemma hasActiveDowntime_cons now s d ds :
  hasActive now s (d :: ds)
  = String.eqb (ResourceName d) s && active now d || hasActive now s ds.
Proof. done. Qed.

Lemma foldl_registry_lookup now ds acc s :
  (foldl (step now) acc ds).1.1 !! s
  = if hasActive now s ds then marked (acc.1.1 !! s) else acc.1.1 !! s.
Proof.
  revert acc. induction ds as [|d ds IH]; intros acc; [done|].
  cbn [foldl]. rewrite IH. destruct acc as [[fs latest] logs].
  rewrite downtimeStep_registry, hasActiveDowntime_cons. cbn [fst].
  destruct (String.eqb_spec (ResourceName d) s) as [<-|Hne].
  - destruct (active now d); cbn [andb orb].
    + rewrite markTopoFiltered_eq. fold (marked (fs !! ResourceName d)).
      rewrite marked_idem. by destruct (hasActive now (ResourceName d) ds).
    + done.
  - cbn [andb orb]. destruct (active now d); [|done].
    by rewrite markTopoFiltered_ne.
Qed.

Lemma applyDowntimeInfo_lookup now info st s :
  filteredServers (applyDowntimeInfo time_Parse now info st).1 !! s
  = registryAfterImport (filteredServers st !! s)
      (hasActive now s (CurrentDowntimes info ++ FutureDowntimes info)).
Proof.
  rewrite applyDowntimeInfo_registry, foldl_registry_lookup. cbn [fst].
  unfold registryAfterImport, marked.
  destruct (filteredServers st !! s) as [state|] eqn:Hs.
  - destruct (String.eqb_spec state topoFiltered) as [->|Hne].
    + assert (purgeTopoFiltered (filteredServers st) !! s = None) as ->; [|done].
      apply eq_None_not_Some. intros [x Hx']. apply purgeTopoFiltered_lookup in Hx'.
      destruct Hx' as [Hx' Hne]. congruence.
    + assert (purgeTopoFiltered (filteredServers st) !! s = Some state) as ->.
      { by apply purgeTopoFiltered_lookup. }
      destruct (String.eqb_spec state tempAllowed) as [->|_];
        by destruct (hasActive _ _ _).
  - assert (purgeTopoFiltered (filteredServers st) !! s = None) as ->; [|done].
    apply eq_None_not_Some. intros [x Hx']. apply purgeTopoFiltered_lookup in Hx'.
    destruct Hx' as [Hx' _]. congruence.
Qed.

(** X1. The registry after an import whose feed was fetched, server by
    server: an entry in a state other than [topoFiltered] and [tempAllowed]
    is kept; otherwise the entry is [topoFiltered] when the feed has a
    currently-active downtime for the server, and without one a
    [tempAllowed] entry is kept and a [topoFiltered] entry is gone. *)
Theorem import_registry_pointwise src st u resp info s :
  url_Parse (Federation_TopologyDowntimeUrl src) = inr u →
  MakeRequest src (Federation_TopologyDowntimeUrl src) = inr resp →
  xml_Unmarshal resp = inr info →
  filteredServers (updateDowntime src st).1.2 !! s
  = registryAfterImport (filteredServers st !! s)
      (hasActive (time_Now src) s (CurrentDowntimes info ++ FutureDowntimes info)).
Proof.
  intros Hu Hr Hx.
  rewrite (updateDowntime_fetched _ _ _ _ _ Hu Hr Hx). cbn [fst snd].
  apply applyDowntimeInfo_lookup.
Qed.

(** The table and the log of an iteration do not depend on the registry. *)
Lemma downtimeStep_table now fs latest logs d :
  (step now (fs, latest, logs) d).1.2
  = match recordOf now d with
    | Some r => <[ResourceName d := default [] (latest !! ResourceName d) ++ [r]]> latest
    | None => latest
    end.
Proof.
  unfold downtimeStep, topologyRecord.
  destruct (time_Parse timeLayout (dt_StartTime d)) as [e|start]; [done|].
  destruct (time_Parse timeLayout (dt_EndTime d)) as [e|end_]; [done|].
  destruct (Time_After end_ now); [|done].
  destruct (time_Parse timeLayout (dt_CreatedTime d)) as [e|created]; [done|].
  destruct (time_Parse timeLayout (dt_UpdateTime d)) as [e|updated]; [done|].
  destruct (parseClass (dt_Class d)) as [class|]; [|done].
  by destruct (parseSeverity (dt_Severity d)) as [severity|].
Qed.

Lemma downtimeStep_logs now fs fs' latest latest' logs d :
  (step now (fs, latest, logs) d).2 = (step now (fs', latest', logs) d).2.
Proof.
  unfold downtimeStep.
  repeat match goal with
         | |- context [match ?x with _ => _ end] => destruct x
         end; done.
Qed.

Lemma foldl_table_logs_independent now ds acc acc' :
  acc.1.2 = acc'.1.2 → acc.2 = acc'.2 →
  (foldl (step now) acc ds).1.2 = (foldl (step now) acc' ds).1.2
  ∧ (foldl (step now) acc ds).2 = (foldl (step now) acc' ds).2.
Proof.
  revert acc acc'. induction ds as [|d ds IH]; intros acc acc' Ht Hl; [done|].
  cbn [foldl]. apply IH.
  - destruct acc as [[fs latest] logs], acc' as [[fs' latest'] logs'].
    cbn [fst snd] in *. subst. by rewrite !downtimeStep_table.
  - destruct acc as [[fs latest] logs], acc' as [[fs' latest'] logs'].
    cbn [fst snd] in *. subst.
    apply downtimeStep_logs.
Qed.

Lemma registryAfterImport_idem entry a :
  registryAfterImport (registryAfterImport entry a) a = registryAfterImport entry a.
Proof.
  clear_unused. unfold registryAfterImport. destruct entry as [state|].
  - destruct (String.eqb_spec state topoFiltered) as [->|H1].
    { by destruct a. }
    destruct (String.eqb_spec state tempAllowed) as [->|H2].
    { by destruct a. }
    apply String.eqb_neq in H1, H2. by rewrite H1, H2.
  - by destruct a.
Qed.

Lemma applyDowntimeInfo_unfold now info st :
  applyDowntimeInfo time_Parse now info st
  = let r := foldl (step now) (purgeTopoFiltered (filteredServers st), ∅, [])
                   (CurrentDowntimes info ++ FutureDowntimes info) in
    (mkDowntimeState r.1.1 r.1.2,
     r.2 ++ [Log InfoLevel
               "The following servers are currently configured in downtime: %#v" []]).
Proof. unfold applyDowntimeInfo. by destruct (foldl _ _ _) as [[fs latest] logs]. Qed.

(** X2. Importing the same feed at the same clock reading a second time
    changes nothing: the second run returns the state and the log of the
    first. *)
Theorem import_idempotent src st u resp info :
  url_Parse (Federation_TopologyDowntimeUrl src) = inr u →
  MakeRequest src (Federation_TopologyDowntimeUrl src) = inr resp →
  xml_Unmarshal resp = inr info →
  updateDowntimeFromTopology url_Parse time_Parse xml_Unmarshal src
    (updateDowntimeFromTopology url_Parse time_Parse xml_Unmarshal src st).1.2
  = updateDowntimeFromTopology url_Parse time_Parse xml_Unmarshal src st.
Proof.
  intros Hu Hr Hx.
  rewrite !(updateDowntime_fetched _ _ _ _ _ Hu Hr Hx). cbn [fst snd].
  set (st1 := (applyDowntimeInfo time_Parse (time_Now src) info st).1).
  assert (filteredServers (applyDowntimeInfo time_Parse (time_Now src) info st1).1
          = filteredServers st1) as Hreg.
  { apply map_eq. intros s. rewrite applyDowntimeInfo_lookup. unfold st1.
    rewrite applyDowntimeInfo_lookup. apply registryAfterImport_idem. }
  rewrite applyDowntimeInfo_unfold in Hreg. cbn [fst filteredServers] in Hreg.
  rewrite (applyDowntimeInfo_unfold _ _ st1). cbv zeta. cbn [fst snd].
  rewrite Hreg.
  destruct (foldl_table_logs_independent (time_Now src)
              (CurrentDowntimes info ++ FutureDowntimes info)
              (purgeTopoFiltered (filteredServers st1), ∅, [])
              (purgeTopoFiltered (filteredServers st), ∅, []) eq_refl eq_refl)
    as [Ht Hl].
  rewrite Ht, Hl. unfold st1. rewrite (applyDowntimeInfo_unfold _ _ st).
  cbv zeta. cbn [fst snd filteredServers]. done.
Qed.

(** *** ConfigFilteredServers *)

Lemma foldl_permFiltered_lookup (names : list string) (fs : gmap string filterType) s :
  foldl (λ m sn, <[sn := permFiltered]> m) fs names !! s
  = if bool_decide (s ∈ names) then Some permFiltered else fs !! s.
Proof.
  clear_unused. revert fs. induction names as [|n names IH]; intros fs; [done|].
  cbn [foldl]. rewrite IH.
  destruct (decide (s ∈ names)) as [Hin|Hnin].
  - rewrite !bool_decide_eq_true_2; [done| |done]. apply elem_of_cons. by right.
  - rewrite (bool_decide_eq_false_2 _ Hnin).
    destruct (decide (s = n)) as [->|Hne].
    + rewrite lookup_insert_eq, bool_decide_eq_true_2; [done|]. apply elem_of_cons. by left.
    + rewrite lookup_insert_ne by done. rewrite bool_decide_eq_false_2; [done|].
      rewrite elem_of_cons. tauto.
Qed.

(** X3. [ConfigFilteredServers] sets [permFiltered] for exactly the names
    of the parameter, over whatever entry was there, and leaves every other
    entry as it is; when the parameter is not set the registry is not
    touched. *)
Theorem ConfigFilteredServers_lookup p (fs : gmap string filterType) s :
  (ConfigFilteredServers p fs).1 !! s
  = if Director_FilteredServers_IsSet p && bool_decide (s ∈ Director_FilteredServers p)
    then Some permFiltered else fs !! s.
Proof.
  clear_unused. unfold ConfigFilteredServers.
  destruct (Director_FilteredServers_IsSet p); [|done].
  cbn [fst andb]. apply foldl_permFiltered_lookup.
Qed.

(** No run of the import touches an entry in a state other than
    [topoFiltered] and [tempAllowed]. *)
Lemma updateDowntime_keeps_other_states src st s state :
  filteredServers st !! s = Some state →
  state ≠ topoFiltered → state ≠ tempAllowed →
  filteredServers (updateDowntime src st).1.2 !! s = Some state.
Proof.
  intros Hs H1 H2. unfold updateDowntimeFromTopology.
  destruct (url_Parse (Federation_TopologyDowntimeUrl src)) as [e|u]; [done|].
  destruct (MakeRequest src (Federation_TopologyDowntimeUrl src)) as [e|resp]; [done|].
  destruct (xml_Unmarshal resp) as [e|info]; [done|].
  pose proof (applyDowntimeInfo_lookup (time_Now src) info st s) as H.
  destruct (applyDowntimeInfo _ _ _ _) as [st' logs]. cbn [fst snd] in *.
  rewrite H, Hs. unfold registryAfterImport.
  apply String.eqb_neq in H1, H2. by rewrite H1, H2.
Qed.

(** X4. A server named in [Director.FilteredServers] is reported as
    filtered for the reason [permFiltered] once the parameter has been
    loaded, and it still is after any run of the topology downtime import,
    whatever the feed says and whether or not the fetch succeeds. *)
Theorem configured_server_stays_permFiltered p fs table src sn :
  Director_FilteredServers_IsSet p = true →
  sn ∈ Director_FilteredServers p →
  let st := mkDowntimeState (ConfigFilteredServers p fs).1 table in
  (checkFilter (filteredServers st) sn).1 = (true, permFiltered)
  ∧ (checkFilter (filteredServers (updateDowntime src st).1.2) sn).1
    = (true, permFiltered).
Proof.
  intros Hset Hin. cbv zeta.
  assert ((ConfigFilteredServers p fs).1 !! sn = Some permFiltered) as Hsn.
  { unfold ConfigFilteredServers. rewrite Hset. cbn [fst].
    rewrite foldl_permFiltered_lookup. by rewrite bool_decide_eq_true_2. }
  split.
  - unfold checkFilter. cbn [filteredServers]. by rewrite Hsn.
  - unfold checkFilter.
    by rewrite (updateDowntime_keeps_other_states src
                  (mkDowntimeState (ConfigFilteredServers p fs).1 table)
                  sn permFiltered Hsn).
Qed.

(** *** The downtime table *)

Lemma foldl_table_lookup now ds acc name :
  (foldl (step now) acc ds).1.2 !! name
  = match recordsFor now name ds with
    | [] => acc.1.2 !! name
    | rs => Some (default [] (acc.1.2 !! name) ++ rs)
    end.
Proof.
  revert acc. induction ds as [|d ds IH]; intros acc; [done|].
  cbn [foldl]. rewrite IH. destruct acc as [[fs latest] logs].
  rewrite downtimeStep_table. cbn [fst snd].
  unfold topologyRecordsFor. rewrite filter_cons.
  destruct (decide (ResourceName d = name)) as [<-|Hne].
  - change (omap (recordOf now) (d :: ?l))
      with (match recordOf now d with
            | Some r => r :: omap (recordOf now) l
            | None => omap (recordOf now) l
            end).
    destruct (recordOf now d) as [r|]; [|done].
    rewrite lookup_insert_eq. cbn [default].
    destruct (omap _ _) as [|r' rs]; [done|].
    unfold id. by rewrite <-app_assoc.
  - destruct (recordOf now d) as [r|]; [|done].
    by rewrite lookup_insert_ne.
Qed.

Lemma topologyRecord_facts now d r :
  recordOf now d = Some r →
  ServerName r = ResourceName d ∧ Source r = "topology"
  ∧ Time_UnixMilli now ≤ EndTime r.
Proof.
  unfold topologyRecord.
  destruct (time_Parse timeLayout (dt_StartTime d)) as [e|start]; [done|].
  destruct (time_Parse timeLayout (dt_EndTime d)) as [e|end_]; [done|].
  destruct (Time_After end_ now) eqn:Hafter; [|done].
  destruct (time_Parse timeLayout (dt_CreatedTime d)) as [e|created]; [done|].
  destruct (time_Parse timeLayout (dt_UpdateTime d)) as [e|updated]; [done|].
  destruct (parseClass (dt_Class d)) as [class|]; [|done].
  destruct (parseSeverity (dt_Severity d)) as [severity|]; [|done].
  intros [= <-]. cbn. split; [done|]. split; [done|].
  unfold Time_After in Hafter. apply Z.ltb_lt in Hafter.
  unfold Time_UnixMilli. apply Z.div_le_mono; lia.
Qed.

(** X5. The downtime table is built anew by every import whose feed was
    fetched: the rows of a server are the rows that the records of the feed
    give for it, in the order of the feed, and a server without such a
    record has no entry. Every row carries the name of its server and the
    source "topology", and none has ended before the clock reading of the
    run. *)
Theorem import_builds_downtime_table src st u resp info name :
  url_Parse (Federation_TopologyDowntimeUrl src) = inr u →
  MakeRequest src (Federation_TopologyDowntimeUrl src) = inr resp →
  xml_Unmarshal resp = inr info →
  let table := topologyDowntimes (updateDowntime src st).1.2 in
  table !! name
  = match recordsFor (time_Now src) name
            (CurrentDowntimes info ++ FutureDowntimes info) with
    | [] => None
    | rs => Some rs
    end
  ∧ (∀ rs r, table !! name = Some rs → r ∈ rs →
       ServerName r = name ∧ Source r = "topology"
       ∧ Time_UnixMilli (time_Now src) ≤ EndTime r).
Proof.
  intros Hu Hr Hx. cbv zeta.
  rewrite (updateDowntime_fetched _ _ _ _ _ Hu Hr Hx). cbn [fst snd].
  rewrite applyDowntimeInfo_unfold. cbv zeta. cbn [fst topologyDowntimes].
  rewrite foldl_table_lookup. cbn [fst snd]. rewrite lookup_empty. cbn [default].
  split; [by destruct (recordsFor _ _ _)|].
  intros rs r Hrs Hr'.
  assert (r ∈ recordsFor (time_Now src) name
                (CurrentDowntimes info ++ FutureDowntimes info)) as Hin.
  { destruct (recordsFor _ _ _) as [|r0 rs0]; [done|]. by injection Hrs as <-. }
  unfold topologyRecordsFor in Hin. apply list_elem_of_omap in Hin as (d & Hd & Hrec).
  apply list_elem_of_filter in Hd as [Hname _].
  destruct (topologyRecord_facts _ _ _ Hrec) as (H1 & H2 & H3).
  rewrite H1. done.
Qed.

(** *** More on the import of advertisements *)

Local Abbreviation nsStep :=
  (namespaceStep url_zero url_Parse url_String OriginType CacheType ServerType_String).
Local Abbreviation advertise :=
  (AdvertiseOSDF url_zero url_Parse url_String OriginType CacheType ServerType_String
     time_Parse xml_Unmarshal recordAd).
Local Abbreviation importMaps disableOrigins disableCaches nss :=
  (foldl (nsStep disableOrigins disableCaches)
         (mkImportState ∅ ∅ (TokenGen_zero url_zero) []) nss).

Lemma parseServerAd_fields server serverType caps :
  let ad := (parseServerAd server serverType caps).1 in
  Name ad = Resource server
  ∧ WebURL ad = url_zero
  ∧ ad_Type ad = ServerType_String serverType
  ∧ FromTopology ad = true
  ∧ IOLoad ad = 0%float
  ∧ Caps ad = if String.eqb (ServerType_String serverType) (ServerType_String CacheType)
              then forcedCacheCaps else caps.
Proof.
  cbv zeta. unfold parseServerAdFromTopology.
  destruct (String.eqb (ServerType_String serverType) (ServerType_String CacheType)).
  all: destruct (url_Parse (if negb (strings_HasPrefix (Endpoint server) "http")
                            then "http://" +:+ Endpoint server
                            else Endpoint server)).
  all: destruct (negb (String.eqb (AuthEndpoint server) "")).
  all: try destruct (url_Parse (if negb (strings_HasPrefix (AuthEndpoint server) "http")
                                then "https://" +:+ AuthEndpoint server
                                else AuthEndpoint server)).
  all: cbn [fst Name WebURL ad_Type FromTopology IOLoad Caps]; repeat split.
Qed.

Lemma capsLe_refl c : capsLe c c.
Proof. clear_unused. unfold capsLe. tauto. Qed.

Lemma capsLe_trans c1 c2 c3 : capsLe c1 c2 → capsLe c2 c3 → capsLe c1 c3.
Proof. clear_unused. unfold capsLe. tauto. Qed.

Lemma adExtends_refl (a : @Advertisement URL) : adExtends a a.
Proof. clear_unused. split; [done|]. split; [apply capsLe_refl|done]. Qed.

Lemma adExtends_trans (a1 a2 a3 : @Advertisement URL) :
  adExtends a1 a2 → adExtends a2 a3 → adExtends a1 a3.
Proof.
  clear_unused. intros (H1 & H2 & H3) (H4 & H5 & H6). split; [congruence|].
  split; [by eapply capsLe_trans | by etrans].
Qed.

Lemma consolidate_extends (newAd : @ServerAd URL) (a : @Advertisement URL) nsAd :
  adExtends a (mkAdvertisement (consolidateDupServerAd newAd (ad_ServerAd a))
                               (NamespaceAds a ++ [nsAd])).
Proof.
  clear_unused. split; [done|]. split; [|by apply prefix_app_r].
  unfold capsLe, consolidateDupServerAd. cbn.
  repeat split; intros ->; done.
Qed.

(** An entry of the map, once made, is only ever extended. *)
Lemma addTopologyServer_extends serverType caps nsAd acc server k a :
  acc.1 !! k = Some a →
  ∃ a', (addServer serverType caps nsAd acc server).1 !! k = Some a' ∧ adExtends a a'.
Proof.
  destruct acc as [adMap logs]. cbn [fst]. intros Hk. unfold addTopologyServer.
  destruct (parseServerAdFromTopology _ _ _ _ server serverType caps) as [serverAd l].
  destruct (adMap !! url_String (ad_URL serverAd)) as [existingAd|] eqn:Hex; cbn [fst].
  - destruct (decide (url_String (ad_URL serverAd) = k)) as [<-|Hne].
    + rewrite lookup_insert_eq. eexists. split; [done|].
      assert (existingAd = a) as -> by congruence. apply consolidate_extends.
    + rewrite lookup_insert_ne by done. eauto using adExtends_refl.
  - destruct (decide (url_String (ad_URL serverAd) = k)) as [<-|Hne]; [congruence|].
    rewrite lookup_insert_ne by done. eauto using adExtends_refl.
Qed.

Lemma foldl_addTopologyServer_extends serverType caps nsAd servers acc k a :
  acc.1 !! k = Some a →
  ∃ a', (foldl (addServer serverType caps nsAd) acc servers).1 !! k = Some a'
        ∧ adExtends a a'.
Proof.
  revert acc a. induction servers as [|server servers IH]; intros acc a Hk.
  { eauto using adExtends_refl. }
  cbn [foldl].
  destruct (addTopologyServer_extends serverType caps nsAd acc server k a Hk)
    as (a1 & H1 & He1).
  destruct (IH _ _ H1) as (a2 & H2 & He2).
  eauto using adExtends_trans.
Qed.

Lemma namespaceStep_maps disableOrigins disableCaches acc ns :
  (originAdMap (nsStep disableOrigins disableCaches acc ns) = originAdMap acc
   ∧ cacheAdMap (nsStep disableOrigins disableCaches acc ns) = cacheAdMap acc)
  ∨ ∃ caps nsAd,
      DirectReads caps = true ∧ ns_FromTopology nsAd = true
      ∧ originAdMap (nsStep disableOrigins disableCaches acc ns)
        = (if negb disableOrigins
           then (foldl (addServer OriginType caps nsAd) (originAdMap acc, []) (Origins ns)).1
           else originAdMap acc)
      ∧ cacheAdMap (nsStep disableOrigins disableCaches acc ns)
        = (if negb disableCaches
           then (foldl (addServer CacheType Capabilities_zero nsAd)
                       (cacheAdMap acc, []) (Caches ns)).1
           else cacheAdMap acc).
Proof.
  unfold namespaceStep. cbv zeta.
  set (write := negb (String.eqb (WritebackHost ns) "")).
  set (listings := negb (String.eqb (DirlistHost ns) "")).
  set (caps := mkCapabilities (negb (UseTokenOnRead ns)) (ReadHTTPS ns) write listings true).
  destruct (UseTokenOnRead ns) eqn:Htok.
  - destruct (url_Parse (cg_Issuer (CredentialGen ns))) as [err|credIssuer]; [by left|].
    destruct (foldl _ ([], []) (Scitokens ns)) as [tokenIssuers logs].
    right.
    match goal with
    | |- context [addTopologyServer _ _ _ _ _ CacheType _ ?n] => exists caps, n
    end.
    split; [done|]. split; [done|].
    destruct (negb disableOrigins), (negb disableCaches);
      repeat match goal with
             | |- context [foldl ?f (?m, []) ?l] => destruct (foldl f (m, []) l)
             end; done.
  - right.
    match goal with
    | |- context [addTopologyServer _ _ _ _ _ CacheType _ ?n] => exists caps, n
    end.
    split; [done|]. split; [done|].
    destruct (negb disableOrigins), (negb disableCaches);
      repeat match goal with
             | |- context [foldl ?f (?m, []) ?l] => destruct (foldl f (m, []) l)
             end; done.
Qed.

Lemma namespaceStep_extends disableOrigins disableCaches acc ns k a :
  (originAdMap acc !! k = Some a →
   ∃ a', originAdMap (nsStep disableOrigins disableCaches acc ns) !! k = Some a'
         ∧ adExtends a a')
  ∧ (cacheAdMap acc !! k = Some a →
     ∃ a', cacheAdMap (nsStep disableOrigins disableCaches acc ns) !! k = Some a'
           ∧ adExtends a a').
Proof.
  destruct (namespaceStep_maps disableOrigins disableCaches acc ns)
    as [[-> ->]|(caps & nsAd & _ & _ & -> & ->)].
  { split; intros Hk; eauto using adExtends_refl. }
  split; intros Hk.
  - destruct (negb disableOrigins); [|eauto using adExtends_refl].
    by apply (foldl_addTopologyServer_extends _ _ _ _ (originAdMap acc, [])).
  - destruct (negb disableCaches); [|eauto using adExtends_refl].
    by apply (foldl_addTopologyServer_extends _ _ _ _ (cacheAdMap acc, [])).
Qed.

(** X6. The first advertisement seen under a URL stays for the rest of the
    import: whatever further namespaces are read, the entry keeps its
    server fields (name, type, URLs, provenance, load), loses no capability
    and keeps its namespaces as the first ones of its list. *)
Theorem import_keeps_first_seen disableOrigins disableCaches acc nss k a :
  (originAdMap acc !! k = Some a →
   ∃ a', originAdMap (foldl (nsStep disableOrigins disableCaches) acc nss) !! k = Some a'
         ∧ adExtends a a')
  ∧ (cacheAdMap acc !! k = Some a →
     ∃ a', cacheAdMap (foldl (nsStep disableOrigins disableCaches) acc nss) !! k = Some a'
           ∧ adExtends a a').
Proof.
  revert acc a. induction nss as [|ns nss IH]; intros acc a.
  { split; intros Hk; eauto using adExtends_refl. }
  cbn [foldl].
  destruct (namespaceStep_extends disableOrigins disableCaches acc ns k a) as [Ho Hc].
  split; intros Hk.
  - destruct (Ho Hk) as (a1 & H1 & He1).
    destruct (proj1 (IH _ a1) H1) as (a2 & H2 & He2). eauto using adExtends_trans.
  - destruct (Hc Hk) as (a1 & H1 & He1).
    destruct (proj2 (IH _ a1) H1) as (a2 & H2 & He2). eauto using adExtends_trans.
Qed.

(** A property of the entries that holds of a fresh entry and survives a
    merge holds of the map after a server has been added. *)
Lemma addTopologyServer_Forall (P : string → @Advertisement URL → Prop)
    serverType caps nsAd acc server :
  (∀ server',
     P (url_String (ad_URL (parseServerAd server' serverType caps).1))
       (mkAdvertisement (parseServerAd server' serverType caps).1 [nsAd])) →
  (∀ server' k a,
     P k a →
     P k (mkAdvertisement
            (consolidateDupServerAd (parseServerAd server' serverType caps).1
                                    (ad_ServerAd a))
            (NamespaceAds a ++ [nsAd]))) →
  map_Forall P acc.1 →
  map_Forall P (addServer serverType caps nsAd acc server).1.
Proof.
  intros Hfresh Hmerge Hall. destruct acc as [adMap logs]. cbn [fst] in Hall.
  specialize (Hfresh server). specialize (Hmerge server).
  unfold addTopologyServer.
  destruct (parseServerAdFromTopology _ _ _ _ server serverType caps) as [serverAd l].
  cbn [fst] in *.
  destruct (adMap !! url_String (ad_URL serverAd)) as [existingAd|] eqn:Hex; cbn [fst].
  - apply map_Forall_insert_2; [|done]. apply Hmerge. by apply Hall.
  - by apply map_Forall_insert_2.
Qed.

Lemma foldl_addTopologyServer_Forall (P : string → @Advertisement URL → Prop)
    serverType caps nsAd servers acc :
  (∀ server',
     P (url_String (ad_URL (parseServerAd server' serverType caps).1))
       (mkAdvertisement (parseServerAd server' serverType caps).1 [nsAd])) →
  (∀ server' k a,
     P k a →
     P k (mkAdvertisement
            (consolidateDupServerAd (parseServerAd server' serverType caps).1
                                    (ad_ServerAd a))
            (NamespaceAds a ++ [nsAd]))) →
  map_Forall P acc.1 →
  map_Forall P (foldl (addServer serverType caps nsAd) acc servers).1.
Proof.
  intros Hfresh Hmerge. revert acc.
  induction servers as [|server servers IH]; intros acc Hall; [done|].
  cbn [foldl]. apply IH. by apply addTopologyServer_Forall.
Qed.

Lemma topologyAdOk_fresh serverType caps nsAd server :
  ns_FromTopology nsAd = true →
  topologyAdOk url_String (ServerType_String serverType)
    (url_String (ad_URL (parseServerAd server serverType caps).1))
    (mkAdvertisement (parseServerAd server serverType caps).1 [nsAd]).
Proof.
  intros Hns. destruct (parseServerAd_fields server serverType caps)
    as (_ & _ & Htype & Htopo & Hload & _).
  unfold topologyAdOk. cbn [ad_ServerAd NamespaceAds].
  repeat split; try done. by apply Forall_singleton.
Qed.

Lemma topologyAdOk_merge type (newAd : @ServerAd URL) nsAd k a :
  ns_FromTopology nsAd = true →
  topologyAdOk url_String type k a →
  topologyAdOk url_String type k
    (mkAdvertisement (consolidateDupServerAd newAd (ad_ServerAd a))
                     (NamespaceAds a ++ [nsAd])).
Proof.
  clear_unused. intros Hns (Hk & Htopo & Htype & Hload & Hne & Hall).
  unfold topologyAdOk. cbn. repeat split; try done.
  - by destruct (NamespaceAds a).
  - apply Forall_app. split; [done|]. by apply Forall_singleton.
Qed.

Lemma cacheAdOk_fresh caps nsAd server :
  ns_FromTopology nsAd = true →
  cacheAdOk url_String (ServerType_String CacheType)
    (url_String (ad_URL (parseServerAd server CacheType caps).1))
    (mkAdvertisement (parseServerAd server CacheType caps).1 [nsAd]).
Proof.
  intros Hns. split; [by apply topologyAdOk_fresh|].
  destruct (parseServerAd_fields server CacheType caps) as (_ & _ & _ & _ & _ & Hcaps).
  cbn [ad_ServerAd]. by rewrite Hcaps, String.eqb_refl.
Qed.

Lemma cacheAdOk_merge caps nsAd server k a :
  ns_FromTopology nsAd = true →
  cacheAdOk url_String (ServerType_String CacheType) k a →
  cacheAdOk url_String (ServerType_String CacheType) k
    (mkAdvertisement
       (consolidateDupServerAd (parseServerAd server CacheType caps).1 (ad_ServerAd a))
       (NamespaceAds a ++ [nsAd])).
Proof.
  intros Hns [Hok Hcaps]. split; [by apply topologyAdOk_merge|].
  destruct (parseServerAd_fields server CacheType caps) as (_ & _ & _ & _ & _ & Hnew).
  rewrite String.eqb_refl in Hnew.
  unfold consolidateDupServerAd. cbn [ad_ServerAd set_Caps Caps].
  by rewrite Hcaps, Hnew.
Qed.

Lemma namespaceStep_wellformed disableOrigins disableCaches acc ns :
  map_Forall (cacheAdOk url_String (ServerType_String CacheType)) (cacheAdMap acc) →
  map_Forall (topologyAdOk url_String (ServerType_String OriginType)) (originAdMap acc) →
  map_Forall (cacheAdOk url_String (ServerType_String CacheType))
             (cacheAdMap (nsStep disableOrigins disableCaches acc ns))
  ∧ map_Forall (topologyAdOk url_String (ServerType_String OriginType))
               (originAdMap (nsStep disableOrigins disableCaches acc ns)).
Proof.
  intros Hc Ho.
  destruct (namespaceStep_maps disableOrigins disableCaches acc ns)
    as [[-> ->]|(caps & nsAd & _ & Hns & -> & ->)]; [done|].
  split.
  - destruct (negb disableCaches); [|done].
    apply (foldl_addTopologyServer_Forall _ _ _ _ _ (cacheAdMap acc, [])); [| |done].
    + intros server'. by apply cacheAdOk_fresh.
    + intros server' k a. by apply cacheAdOk_merge.
  - destruct (negb disableOrigins); [|done].
    apply (foldl_addTopologyServer_Forall _ _ _ _ _ (originAdMap acc, [])); [| |done].
    + intros server'. by apply topologyAdOk_fresh.
    + intros server' k a. by apply topologyAdOk_merge.
Qed.

Lemma namespaceStep_directReads disableOrigins disableCaches acc ns :
  ServerType_String OriginType ≠ ServerType_String CacheType →
  map_Forall (λ _ a, DirectReads (Caps (ad_ServerAd a)) = true) (originAdMap acc) →
  map_Forall (λ _ a, DirectReads (Caps (ad_ServerAd a)) = true)
             (originAdMap (nsStep disableOrigins disableCaches acc ns)).
Proof.
  intros Hne Ho.
  destruct (namespaceStep_maps disableOrigins disableCaches acc ns)
    as [[-> _]|(caps & nsAd & Hdr & _ & -> & _)]; [done|].
  destruct (negb disableOrigins); [|done].
  apply (foldl_addTopologyServer_Forall _ _ _ _ _ (originAdMap acc, [])); [| |done].
  - intros server'.
    destruct (parseServerAd_fields server' OriginType caps) as (_ & _ & _ & _ & _ & Hcaps).
    cbn [ad_ServerAd]. rewrite Hcaps. apply String.eqb_neq in Hne. by rewrite Hne.
  - intros server' k a Ha. unfold consolidateDupServerAd.
    cbn [ad_ServerAd set_Caps Caps DirectReads]. by rewrite Ha.
Qed.

(** X7. Every advertisement that the import builds from a manifest sits
    under the text of its URL, is marked as coming from topology, has the
    type of its map and no load, and lists at least one namespace, each
    marked as coming from topology. A cache advertisement has the forced
    capabilities, also after several namespaces were merged into it; an
    origin advertisement allows direct reads, given that the names of the
    two server types differ. *)
Theorem import_maps_wellformed disableOrigins disableCaches nss :
  let imp := importMaps disableOrigins disableCaches nss in
  map_Forall (cacheAdOk url_String (ServerType_String CacheType)) (cacheAdMap imp)
  ∧ map_Forall (topologyAdOk url_String (ServerType_String OriginType)) (originAdMap imp)
  ∧ (ServerType_String OriginType ≠ ServerType_String CacheType →
     map_Forall (λ _ a, DirectReads (Caps (ad_ServerAd a)) = true) (originAdMap imp)).
Proof.
  cbv zeta.
  assert (∀ acc,
    map_Forall (cacheAdOk url_String (ServerType_String CacheType)) (cacheAdMap acc) →
    map_Forall (topologyAdOk url_String (ServerType_String OriginType)) (originAdMap acc) →
    (ServerType_String OriginType ≠ ServerType_String CacheType →
     map_Forall (λ _ a, DirectReads (Caps (ad_ServerAd a)) = true) (originAdMap acc)) →
    let imp := foldl (nsStep disableOrigins disableCaches) acc nss in
    map_Forall (cacheAdOk url_String (ServerType_String CacheType)) (cacheAdMap imp)
    ∧ map_Forall (topologyAdOk url_String (ServerType_String OriginType)) (originAdMap imp)
    ∧ (ServerType_String OriginType ≠ ServerType_String CacheType →
       map_Forall (λ _ a, DirectReads (Caps (ad_ServerAd a)) = true) (originAdMap imp)))
    as Hgen.
  { induction nss as [|ns nss IH]; intros acc Hc Ho Hd; [done|].
    cbn [foldl].
    destruct (namespaceStep_wellformed disableOrigins disableCaches acc ns Hc Ho)
      as [Hc' Ho'].
    apply IH; [done|done|]. intros Hne. apply namespaceStep_directReads; auto. }
  apply Hgen; cbn [cacheAdMap originAdMap]; try intros _; apply map_Forall_empty.
Qed.

(** A run of the downtime import that ends in an error has changed
    nothing. *)
Lemma updateDowntime_error_keeps_state src st e :
  (updateDowntime src st).1.1 = Some e → (updateDowntime src st).1.2 = st.
Proof.
  unfold updateDowntimeFromTopology.
  destruct (url_Parse (Federation_TopologyDowntimeUrl src)) as [e'|u]; [done|].
  destruct (MakeRequest src (Federation_TopologyDowntimeUrl src)) as [e'|resp]; [done|].
  destruct (xml_Unmarshal resp) as [e'|info]; [done|].
  by destruct (applyDowntimeInfo _ _ _ _).
Qed.

(** *** AdvertiseOSDF as a whole *)

Lemma importMaps_disabled acc nss :
  originAdMap (foldl (nsStep true true) acc nss) = originAdMap acc
  ∧ cacheAdMap (foldl (nsStep true true) acc nss) = cacheAdMap acc.
Proof.
  revert acc. induction nss as [|ns nss IH]; intros acc; [done|].
  cbn [foldl]. destruct (IH (nsStep true true acc ns)) as [-> ->].
  destruct (namespaceStep_maps true true acc ns)
    as [[-> ->]|(caps & nsAd & _ & _ & -> & ->)]; done.
Qed.

Lemma recordAll_empty (s : AdState) : recordAll recordAd ∅ s = s.
Proof. unfold recordAll. by rewrite map_to_list_empty. Qed.

(** X8. Once the topology JSON has been fetched, [AdvertiseOSDF] does not
    fail: the advertisements of the manifest are recorded whatever happens
    to the downtime feed, and when the downtime run ends in an error the
    registry and the downtime table stay as they were and the error is
    logged. *)
Theorem downtime_failure_not_fatal src (st : @DirectorState AdState) namespaces :
  GetTopologyJSON src = inr namespaces →
  let imp := importMaps (Topology_DisableOrigins src) (Topology_DisableCaches src)
                        (Namespaces namespaces) in
  (advertise src st).1.1 = None
  ∧ adState (advertise src st).1.2
    = recordAll recordAd (cacheAdMap imp) (recordAll recordAd (originAdMap imp) (adState st))
  ∧ (∀ e, Topology_DisableDowntime src = false →
          (updateDowntime (downtimeSource src) (downtimeState st)).1.1 = Some e →
          downtimeState (advertise src st).1.2 = downtimeState st
          ∧ Log ErrorLevel
              "Unable to generate downtime list for servers from topology: %v" [e]
            ∈ (advertise src st).2).
Proof.
  intros Hjson. cbv zeta. unfold AdvertiseOSDF. rewrite Hjson.
  destruct (negb (Topology_DisableDowntime src)) eqn:Hdis.
  - pose proof updateDowntime_error_keeps_state as Hkeep.
    destruct (updateDowntime (downtimeSource src) (downtimeState st))
      as [[err dts] logs1] eqn:Hrun.
    cbn [fst snd adState downtimeState]. split; [done|]. split; [done|].
    intros e _ [= ->]. split.
    + specialize (Hkeep (downtimeSource src) (downtimeState st) e).
      rewrite Hrun in Hkeep. by apply Hkeep.
    + rewrite !elem_of_app. right; left. apply elem_of_cons. by left.
  - cbn [fst snd adState downtimeState]. split; [done|]. split; [done|].
    intros e Hfalse. rewrite Hfalse in Hdis. done.
Qed.

(** X9. The switches of the import: with [Topology.DisableDowntime] set the
    registry and the downtime table are not touched, and with both
    [Topology.DisableOrigins] and [Topology.DisableCaches] set no
    advertisement is recorded. *)
Theorem import_switches src (st : @DirectorState AdState) :
  (Topology_DisableDowntime src = true →
   downtimeState (advertise src st).1.2 = downtimeState st)
  ∧ (Topology_DisableOrigins src = true → Topology_DisableCaches src = true →
     adState (advertise src st).1.2 = adState st).
Proof.
  unfold AdvertiseOSDF. split.
  - intros Hd. rewrite Hd. cbn [negb]. by destruct (GetTopologyJSON src).
  - intros Ho Hc. rewrite Ho, Hc. destruct (GetTopologyJSON src) as [e|nss]; [done|].
    destruct (if negb (Topology_DisableDowntime src) then _ else _) as [[err dts] logs1].
    cbn [fst snd adState].
    destruct (importMaps_disabled (mkImportState ∅ ∅ (TokenGen_zero url_zero) [])
                (Namespaces nss)) as [-> ->].
    cbn [originAdMap cacheAdMap]. by rewrite !recordAll_empty.
Qed.

(** *** Servers whose endpoint is not a URL *)

Lemma parseServerAd_unparsable server serverType caps :
  unparsableEndpoint url_Parse server →
  ad_URL (parseServerAd server serverType caps).1 = url_zero.
Proof.
  intros [err Herr]. unfold schemedEndpoint in Herr.
  unfold parseServerAdFromTopology. rewrite Herr.
  destruct (negb (String.eqb (AuthEndpoint server) ""));
    [destruct (url_Parse (if negb (strings_HasPrefix (AuthEndpoint server) "http")
                          then "https://" +:+ AuthEndpoint server
                          else AuthEndpoint server))|]; reflexivity.
Qed.

Lemma addTopologyServer_unparsable serverType caps nsAd a logs server :
  unparsableEndpoint url_Parse server →
  ∃ a', (addServer serverType caps nsAd ({[ url_String url_zero := a ]}, logs) server).1
        = {[ url_String url_zero := a' ]}
        ∧ Name (ad_ServerAd a') = Name (ad_ServerAd a)
        ∧ NamespaceAds a' = NamespaceAds a ++ [nsAd].
Proof.
  intros Hbad. pose proof (parseServerAd_unparsable server serverType caps Hbad) as Hurl.
  unfold addTopologyServer.
  destruct (parseServerAdFromTopology _ _ _ _ server serverType caps) as [serverAd l].
  cbn [fst] in Hurl. rewrite Hurl, lookup_singleton_eq. cbn [fst].
  eexists. split; [apply insert_singleton_eq|]. done.
Qed.

(** X10. Servers whose endpoint [url.Parse] rejects get the zero URL, so
    all of them fall under one key: the map built from a list of such
    servers has a single entry, named after the first of them, in which
    the namespace is listed once for every server of the list. *)
Theorem unparsable_endpoints_share_one_entry serverType caps nsAd server servers :
  Forall (unparsableEndpoint url_Parse) (server :: servers) →
  ∃ a, (foldl (addServer serverType caps nsAd) (∅, []) (server :: servers)).1
       = {[ url_String url_zero := a ]}
       ∧ Name (ad_ServerAd a) = Resource server
       ∧ NamespaceAds a = replicate (S (length servers)) nsAd.
Proof.
  intros Hall. apply Forall_cons in Hall as [Hbad Hrest]. cbn [foldl].
  assert (∃ a logs, addServer serverType caps nsAd (∅, []) server
                    = ({[ url_String url_zero := a ]}, logs)
                    ∧ Name (ad_ServerAd a) = Resource server
                    ∧ NamespaceAds a = [nsAd]) as (a0 & logs0 & -> & Hname & Hns).
  { pose proof (parseServerAd_unparsable server serverType caps Hbad) as Hurl.
    destruct (parseServerAd_fields server serverType caps) as (Hn & _).
    unfold addTopologyServer.
    destruct (parseServerAdFromTopology _ _ _ _ server serverType caps) as [serverAd l].
    cbn [fst] in *. rewrite Hurl, lookup_empty. eexists _, _.
    split; [by rewrite insert_empty|]. done. }
  assert (∀ n a logs,
            Name (ad_ServerAd a) = Resource server →
            NamespaceAds a = replicate (S n) nsAd →
            ∃ a', (foldl (addServer serverType caps nsAd)
                         ({[ url_String url_zero := a ]}, logs) servers).1
                  = {[ url_String url_zero := a' ]}
                  ∧ Name (ad_ServerAd a') = Resource server
                  ∧ NamespaceAds a' = replicate (S (n + length servers)) nsAd) as Hgen.
  { clear a0 logs0 Hname Hns.
    induction servers as [|s' servers IH]; intros n a logs Hname Hns.
    { exists a. by rewrite Nat.add_0_r. }
    apply Forall_cons in Hrest as [Hbad' Hrest]. cbn [foldl].
    destruct (addTopologyServer_unparsable serverType caps nsAd a logs s' Hbad')
      as (a1 & Hm & Hname1 & Hns1).
    destruct (addServer serverType caps nsAd ({[ url_String url_zero := a ]}, logs) s')
      as [m1 logs1]. cbn [fst] in Hm. subst m1.
    destruct (IH Hrest (S n) a1 logs1) as (a2 & H2 & Hname2 & Hns2).
    - congruence.
    - rewrite Hns1, Hns. change (replicate (S (S n)) nsAd) with (nsAd :: replicate (S n) nsAd).
      rewrite <-(replicate_cons_app). done.
    - exists a2. split; [done|]. split; [done|].
      rewrite Hns2. cbn [length]. f_equal. lia. }
  destruct (Hgen 0%nat a0 logs0 Hname Hns) as (a' & H' & Hn' & Hns').
  exists a'. done.
Qed.

(** *** Merging advertisements *)

(** X11. The merge of advertisements that share a URL does not depend on
    the order in which the later ones arrive, merging the same
    advertisement again changes nothing, and the result has every
    capability of either advertisement and no other. *)
Theorem consolidateDupServerAd_order (n1 n2 e : @ServerAd URL) :
  consolidateDupServerAd n2 (consolidateDupServerAd n1 e)
  = consolidateDupServerAd n1 (consolidateDupServerAd n2 e)
  ∧ consolidateDupServerAd n1 (consolidateDupServerAd n1 e) = consolidateDupServerAd n1 e
  ∧ capsLe (Caps e) (Caps (consolidateDupServerAd n1 e))
  ∧ capsLe (Caps n1) (Caps (consolidateDupServerAd n1 e))
  ∧ (∀ c, capsLe (Caps e) c → capsLe (Caps n1) c →
          capsLe (Caps (consolidateDupServerAd n1 e)) c).
Proof.
  clear_unused. unfold consolidateDupServerAd, set_Caps, capsLe.
  cbn [Name AuthURL ad_URL WebURL ad_Type Caps FromTopology IOLoad
       PublicReads Reads Writes Listings DirectReads].
  destruct (Caps e) as [e1 e2 e3 e4 e5], (Caps n1) as [a1 a2 a3 a4 a5],
           (Caps n2) as [b1 b2 b3 b4 b5].
  cbn [PublicReads Reads Writes Listings DirectReads].
  assert (∀ x a b : bool, x || a || b = x || b || a) as Hswap by (by intros [] [] []).
  assert (∀ x a : bool, x || a || a = x || a) as Hidem by (by intros [] []).
  split; [|split; [|split; [|split]]].
  - do 2 f_equal; apply Hswap.
  - do 2 f_equal; apply Hidem.
  - repeat split; intros ->; done.
  - repeat split; intros ->; by rewrite orb_true_r.
  - intros [c1 c2 c3 c4 c5]. cbn [PublicReads Reads Writes Listings DirectReads].
    intros (?&?&?&?&?) (?&?&?&?&?).
    repeat split; intros [->| ->]%orb_true_iff; auto.
Qed.

(** *** The listings of the ad store *)

Local Abbreviation listNamespaces :=
  (listNamespacesFromOrigins OriginType ServerType_String).
Local Abbreviation listAds := (listAdvertisement ServerType_String).

Lemma Cache_Items_lookup now (c : @Cache URL) key it :
  Cache_Items now c !! key = Some it ↔ liveItem now c key it.
Proof. clear_unused. unfold Cache_Items, liveItem. by rewrite map_lookup_filter_Some. Qed.

Lemma foldl_namespaces_elem (l : list (string * @Item URL)) acc ns :
  ns ∈ foldl (λ namespaces kv,
                if String.eqb (ad_Type (ad_ServerAd (item_value kv.2)))
                              (ServerType_String OriginType)
                then namespaces ++ NamespaceAds (item_value kv.2)
                else namespaces) acc l
  ↔ ns ∈ acc
    ∨ ∃ kv, kv ∈ l
            ∧ ad_Type (ad_ServerAd (item_value kv.2)) = ServerType_String OriginType
            ∧ ns ∈ NamespaceAds (item_value kv.2).
Proof.
  revert acc. induction l as [|kv l IH]; intros acc.
  { cbn [foldl]. split; [by left|]. intros [H|(kv & H & _)]; [done|]. by inversion H. }
  cbn [foldl]. rewrite IH.
  destruct (String.eqb_spec (ad_Type (ad_ServerAd (item_value kv.2)))
                            (ServerType_String OriginType)) as [Heq|Hne].
  - rewrite elem_of_app. split.
    + intros [[H|H]|(kv' & Hin & Ht & Hns)]; [by left| |].
      * right. exists kv. split; [apply elem_of_cons; by left|done].
      * right. exists kv'. split; [apply elem_of_cons; by right|done].
    + intros [H|(kv' & Hin & Ht & Hns)]; [by left; left|].
      apply elem_of_cons in Hin as [->|Hin]; [by left; right|].
      right. by exists kv'.
  - split.
    + intros [H|(kv' & Hin & Ht & Hns)]; [by left|].
      right. exists kv'. split; [apply elem_of_cons; by right|done].
    + intros [H|(kv' & Hin & Ht & Hns)]; [by left|].
      apply elem_of_cons in Hin as [->|Hin]; [done|].
      right. by exists kv'.
Qed.

(** X12. [listNamespacesFromOrigins] lists exactly the namespaces of the
    advertisements in the store that have not expired and whose type is
    that of an origin; the namespaces of caches and of expired origins are
    not listed. *)
Theorem listNamespacesFromOrigins_elem now (c : @Cache URL) ns :
  ns ∈ listNamespaces now c
  ↔ ∃ key it, liveItem now c key it
              ∧ ad_Type (ad_ServerAd (item_value it)) = ServerType_String OriginType
              ∧ ns ∈ NamespaceAds (item_value it).
Proof.
  unfold listNamespacesFromOrigins. rewrite foldl_namespaces_elem. split.
  - intros [H|([key it] & Hin & Ht & Hns)]; [by inversion H|].
    apply elem_of_map_to_list, Cache_Items_lookup in Hin. by exists key, it.
  - intros (key & it & Hlive & Ht & Hns). right. exists (key, it).
    split; [|done]. by apply elem_of_map_to_list, Cache_Items_lookup.
Qed.

Lemma foldl_types_replicate (ad : @Advertisement URL) (types : list ServerType) ads :
  foldl (λ ads serverType,
           if String.eqb (ad_Type (ad_ServerAd ad)) (ServerType_String serverType)
           then ads ++ [ad] else ads) ads types
  = ads ++ replicate (typeMatches ServerType_String types ad) ad.
Proof.
  revert ads. induction types as [|t types IH]; intros ads.
  { cbn. by rewrite app_nil_r. }
  cbn [foldl]. rewrite IH. unfold typeMatches. rewrite filter_cons.
  destruct (String.eqb_spec (ad_Type (ad_ServerAd ad)) (ServerType_String t)) as [Heq|Hne].
  - rewrite decide_True by done. cbn [length replicate]. by rewrite <-app_assoc.
  - by rewrite decide_False by done.
Qed.

Lemma foldl_listAdvertisement (types : list ServerType) (l : list (string * @Item URL)) acc :
  foldl (λ ads kv,
           foldl (λ ads serverType,
                    if String.eqb (ad_Type (ad_ServerAd (item_value kv.2)))
                                  (ServerType_String serverType)
                    then ads ++ [item_value kv.2] else ads) ads types) acc l
  = acc ++ mjoin ((λ kv, replicate (typeMatches ServerType_String types (item_value kv.2))
                                   (item_value kv.2)) <$> l).
Proof.
  revert acc. induction l as [|kv l IH]; intros acc.
  { cbn. by rewrite app_nil_r. }
  cbn [foldl]. rewrite IH, foldl_types_replicate. cbn. by rewrite <-app_assoc.
Qed.

(** X13. [listAdvertisement] returns every advertisement of the store that
    has not expired once for each entry of [serverTypes] that has its type:
    an advertisement whose type is not asked for is left out, and a type
    that is given twice lists its advertisements twice. *)
Theorem listAdvertisement_repeats now (types : list ServerType) (c : @Cache URL) :
  listAds now types c
  = mjoin ((λ kv, replicate (typeMatches ServerType_String types (item_value kv.2))
                            (item_value kv.2))
           <$> map_to_list (Cache_Items now c))
  ∧ (∀ ad, ad ∈ listAds now types c
           ↔ ∃ key it, liveItem now c key it ∧ item_value it = ad
                       ∧ ∃ t, t ∈ types
                              ∧ ad_Type (ad_ServerAd ad) = ServerType_String t).
Proof.
  assert (listAds now types c
          = mjoin ((λ kv, replicate (typeMatches ServerType_String types (item_value kv.2))
                                    (item_value kv.2))
                   <$> map_to_list (Cache_Items now c))) as Heq.
  { unfold listAdvertisement. by rewrite foldl_listAdvertisement. }
  split; [done|]. intros ad. rewrite Heq, list_elem_of_join. split.
  - intros (l & Had & Hl). apply list_elem_of_fmap in Hl as ([key it] & -> & Hin).
    cbn [snd] in Had. apply elem_of_replicate in Had as [-> Hn].
    apply elem_of_map_to_list, Cache_Items_lookup in Hin.
    exists key, it. split; [done|]. split; [done|].
    unfold typeMatches in Hn.
    destruct (filter _ types) as [|t ts] eqn:Hf; [done|].
    assert (t ∈ filter (λ t, ad_Type (ad_ServerAd (item_value it)) = ServerType_String t)
                       types) as Ht.
    { rewrite Hf. apply elem_of_cons. by left. }
    apply list_elem_of_filter in Ht as [Ht1 Ht2]. by exists t.
  - intros (key & it & Hlive & <- & t & Ht & Htype).
    exists (replicate (typeMatches ServerType_String types (item_value it)) (item_value it)).
    split.
    + apply elem_of_replicate. split; [done|]. unfold typeMatches.
      assert (t ∈ filter (λ t, ad_Type (ad_ServerAd (item_value it)) = ServerType_String t)
                         types) as Hin by (by apply list_elem_of_filter).
      destruct (filter _ types); [by inversion Hin|done].
    + apply list_elem_of_fmap. exists (key, it). split; [done|].
      by apply elem_of_map_to_list, Cache_Items_lookup.
Qed.

(** *** More on the I/O load scraper *)

Lemma Item_isExpired_erase now (it it' : @Item URL) :
  eraseIOLoad it' = eraseIOLoad it → Item_isExpired now it' = Item_isExpired now it.
Proof.
  clear_unused. intros H.
  pose proof (f_equal item_ttl H) as Ht. pose proof (f_equal item_expiresAt H) as He.
  cbn in Ht, He. unfold Item_isExpired. by rewrite Ht, He.
Qed.

(** A row leaves alone every key that it does not name, and every item
    that has expired. *)
Lemma scrapeRows_untouched now rs (c : @Cache URL) logs k :
  (∀ row, row ∈ rs → Metric row !! "server_url" ≠ Some (AnyString k))
  ∨ (∃ it, cache_items c !! k = Some it ∧ Item_isExpired now it = true) →
  cache_items (rows now rs c logs).1.1 !! k = cache_items c !! k.
Proof.
  revert c logs. induction rs as [|result rest IH]; intros c logs Hk; [done|].
  assert ((∀ row, row ∈ rest → Metric row !! "server_url" ≠ Some (AnyString k))
          ∨ (∃ it, cache_items c !! k = Some it ∧ Item_isExpired now it = true)) as Hk'.
  { destruct Hk as [Hk|Hk]; [left|by right].
    intros row Hrow. apply Hk, elem_of_cons. by right. }
  cbn [scrapeRows].
  destruct (Metric result !! "server_url") as [[serverUrl|]|] eqn:Hm;
    [|by apply IH|by apply IH].
  destruct (Values result) as [|ioDerivStr ?]; [done|].
  destruct (String.eqb ioDerivStr ""); [by apply IH|].
  destruct (strconv_ParseFloat ioDerivStr) as [e|ioDeriv]; [by apply IH|].
  destruct (Cache_Get_no_touch now serverUrl c) as [Hitems Hsome].
  destruct (Cache_Get now serverUrl [WithDisableTouchOnHit] c) as [[it|] c'] eqn:Hget;
    cbn [fst snd] in Hitems, Hsome.
  - assert (serverUrl ≠ k) as Hne.
    { intros ->. destruct Hk as [Hk|(it0 & Hit0 & Hexp)].
      - apply (Hk result); [apply elem_of_cons; by left|done].
      - specialize (Hsome it eq_refl). unfold Cache_Get in Hget. cbn [foldl negb] in Hget.
        rewrite Hit0, Hexp in Hget. done. }
    rewrite IH.
    + cbn [cache_items]. by rewrite lookup_alter_ne, Hitems.
    + cbn [cache_items]. rewrite lookup_alter_ne, Hitems by done. done.
  - rewrite IH; rewrite Hitems; done.
Qed.

(** X14. A round of the scraper writes only where a row sends it: an item
    that has expired is left exactly as it is even if a row names it, an
    item that no row names is left exactly as it is, and when the query
    fails or its result is not a vector the ad store is not touched at
    all. *)
Theorem scraper_writes_only_named_live_ads now queryResult (c : @Cache URL) k :
  let c' := (round now queryResult c).1.1 in
  (∀ it, cache_items c !! k = Some it → Item_isExpired now it = true →
         cache_items c' !! k = Some it)
  ∧ (∀ q, queryResult = inr q →
          (∀ row, row ∈ Result q → Metric row !! "server_url" ≠ Some (AnyString k)) →
          cache_items c' !! k = cache_items c !! k)
  ∧ ((∃ err, queryResult = inl err)
     ∨ (∃ q, queryResult = inr q ∧ ResultType q ≠ "vector") →
     c' = c).
Proof.
  cbv zeta.
  assert (∀ q, queryResult = inr q →
            (∀ row, row ∈ Result q → Metric row !! "server_url" ≠ Some (AnyString k))
            ∨ (∃ it, cache_items c !! k = Some it ∧ Item_isExpired now it = true) →
            cache_items (round now queryResult c).1.1 !! k = cache_items c !! k) as Hgen.
  { intros q -> Hk. unfold serverIOQueryRound.
    destruct (negb (String.eqb (ResultType q) "vector")); [done|].
    pose proof (scrapeRows_untouched now (Result q) c [] k Hk) as H.
    destruct (rows now (Result q) c []) as [[c' logs] panicked].
    by destruct panicked. }
  split; [|split].
  - intros it Hit Hexp. destruct queryResult as [err|q] eqn:Hq; [done|].
    rewrite (Hgen q eq_refl); [done|]. right. by exists it.
  - intros q Hq Hrows. apply (Hgen q Hq). by left.
  - intros [[err ->]|(q & -> & Hty)]; [done|].
    unfold serverIOQueryRound. apply String.eqb_neq in Hty. by rewrite Hty.
Qed.

Lemma scrapeRows_app now rs1 rs2 (c : @Cache URL) logs :
  rows now (rs1 ++ rs2) c logs
  = if (rows now rs1 c logs).2 then rows now rs1 c logs
    else rows now rs2 (rows now rs1 c logs).1.1 (rows now rs1 c logs).1.2.
Proof.
  revert c logs. induction rs1 as [|result rest IH]; intros c logs; [done|].
  cbn [app scrapeRows].
  destruct (Metric result !! "server_url") as [[serverUrl|]|]; [|apply IH|apply IH].
  destruct (Values result) as [|ioDerivStr ?]; [done|].
  destruct (String.eqb ioDerivStr ""); [apply IH|].
  destruct (strconv_ParseFloat ioDerivStr) as [e|ioDeriv]; [apply IH|].
  destruct (Cache_Get now serverUrl [WithDisableTouchOnHit] c) as [[it|] c']; apply IH.
Qed.

Lemma scrapeRows_no_panic now rs (c : @Cache URL) logs :
  Forall rowHasSample rs → (rows now rs c logs).2 = false.
Proof.
  revert c logs. induction rs as [|result rest IH]; intros c logs Hall; [done|].
  apply Forall_cons in Hall as [Hrow Hall]. cbn [scrapeRows].
  destruct (Metric result !! "server_url") as [[serverUrl|]|] eqn:Hm;
    [|by apply IH|by apply IH].
  destruct (Values result) as [|ioDerivStr ?] eqn:Hv; [by destruct (Hrow serverUrl)|].
  destruct (String.eqb ioDerivStr ""); [by apply IH|].
  destruct (strconv_ParseFloat ioDerivStr) as [e|ioDeriv]; [by apply IH|].
  destruct (Cache_Get now serverUrl [WithDisableTouchOnHit] c) as [[it|] c'];
    by apply IH.
Qed.

(** X15. The last row of a round decides the load: when the last row names
    a server that is in the store and has not expired, and carries a
    non-empty sample that is a number, then after the round the
    advertisement of that server has this number as its I/O load, whatever
    the rows before did. The rows before must each have a sample if they
    name a server, since the round stops at a row that has none. *)
Theorem scraper_last_row_sets_load now q rs row (c : @Cache URL) k it sample samples load :
  ResultType q = "vector" →
  Result q = rs ++ [row] →
  Forall rowHasSample rs →
  Metric row !! "server_url" = Some (AnyString k) →
  Values row = sample :: samples →
  sample ≠ "" →
  strconv_ParseFloat sample = inr load →
  liveItem now c k it →
  let r := round now (inr q) c in
  r.2 = false
  ∧ ∃ it', cache_items r.1.1 !! k = Some it'
           ∧ IOLoad (ad_ServerAd (item_value it')) = load.
Proof.
  intros Hty Hres Hrs Hm Hv Hne Hload [Hit Hlive]. cbv zeta.
  unfold serverIOQueryRound. rewrite Hty, Hres, String.eqb_refl. cbn [negb].
  rewrite scrapeRows_app, (scrapeRows_no_panic now rs c [] Hrs).
  pose proof (scrapeRows_erase now rs c []) as Herase.
  destruct (rows now rs c []) as [[c1 logs1] p1]. cbn [fst snd] in *.
  apply (f_equal (λ m, m !! k)) in Herase. rewrite !lookup_fmap, Hit in Herase.
  destruct (cache_items c1 !! k) as [it1|] eqn:Hit1; [|done].
  apply (inj Some) in Herase.
  pose proof (Item_isExpired_erase now it it1 Herase) as Hexp. rewrite Hlive in Hexp.
  cbn [scrapeRows]. rewrite Hm, Hv.
  apply String.eqb_neq in Hne. rewrite Hne, Hload.
  unfold Cache_Get. cbn [foldl negb]. rewrite Hit1, Hexp.
  cbn [scrapeRows fst snd cache_items].
  split; [done|].
  rewrite lookup_alter_eq, lookup_insert_eq. cbn. by eexists.
Qed.

(** *** More on the hooks of the ad store *)

(** X16. Inserting an advertisement under a free key and evicting it again
    leaves the items of the store and every value of the server count gauge
    as they were; the eviction also removes the statUtils entry of the key
    and no other. *)
Theorem insert_then_evict_restores now key value ttl (s : @AdStore URL StatUtil) :
  cache_items (serverAds s) !! key = None →
  let s' := Cache_evict key (Cache_Set now key value ttl s) in
  cache_items (serverAds s') = cache_items (serverAds s)
  ∧ (∀ l, Gauge_value (PelicanDirectorServerCount (hookState s')) l
          = Gauge_value (PelicanDirectorServerCount (hookState s)) l)
  ∧ statUtils (hookState s') = delete key (statUtils (hookState s)).
Proof.
  clear_unused. intros Hnone. cbv zeta. unfold Cache_Set. rewrite Hnone.
  unfold Cache_evict.
  cbn [serverAds cache_items with_items hookState]. rewrite lookup_insert_eq.
  cbn [serverAds cache_items with_items hookState onEvictionHook onInsertionHook
       PelicanDirectorServerCount statUtils].
  split; [|split].
  - rewrite delete_insert_eq. by apply delete_id.
  - intros l. rewrite Gauge_Dec_value, Gauge_Inc_value. lia.
  - done.
Qed.

(** *** Routing after an import *)

Lemma checkFilter_excluded_iff (fs : gmap string filterType) s :
  (checkFilter fs s).1.1 = true
  ↔ ∃ state, fs !! s = Some state ∧ state ∈ excludingStates.
Proof.
  clear_unused. destruct (fs !! s) as [state|] eqn:Hfs.
  - destruct (checkFilter_entry fs s state Hfs) as [[Hin ->]|[[-> ->]|[Hout ->]]];
      cbn [fst].
    + split; [eauto|done].
    + split; [done|]. intros (st' & [= <-] & Hin).
      by apply tempAllowed_not_excluding in Hin.
    + split; [done|]. intros (st' & [= <-] & Hin). exfalso. apply Hout.
      apply knownStates_elem. by right.
  - unfold checkFilter. rewrite Hfs. split; [done|]. by intros (st' & ? & _).
Qed.

(** X17. After an import whose feed was fetched, [checkFilter] excludes a
    server exactly when its entry was in an excluding state of another
    source, or the feed has a currently-active downtime for it and the
    server had no entry, a [topoFiltered] entry or a [tempAllowed] entry. A
    server whose entry is in a state that is not known is not excluded,
    active downtime or not. *)
Theorem excluded_after_import src st u resp info s :
  url_Parse (Federation_TopologyDowntimeUrl src) = inr u →
  MakeRequest src (Federation_TopologyDowntimeUrl src) = inr resp →
  xml_Unmarshal resp = inr info →
  (checkFilter (filteredServers (updateDowntime src st).1.2) s).1.1 = true
  ↔ (∃ state, filteredServers st !! s = Some state
              ∧ state ∈ excludingStates ∧ state ≠ topoFiltered)
    ∨ (hasActive (time_Now src) s (CurrentDowntimes info ++ FutureDowntimes info) = true
       ∧ (filteredServers st !! s = None
          ∨ filteredServers st !! s = Some topoFiltered
          ∨ filteredServers st !! s = Some tempAllowed)).
Proof.
  clear_unused.
  intros Hu Hr Hx. rewrite checkFilter_excluded_iff.
  rewrite (updateDowntime_fetched _ _ _ _ _ Hu Hr Hx). cbn [fst snd].
  rewrite applyDowntimeInfo_lookup. unfold registryAfterImport.
  assert (topoFiltered ∈ excludingStates) as Htopo.
  { apply excludingStates_elem. tauto. }
  destruct (filteredServers st !! s) as [state|].
  - destruct (String.eqb_spec state topoFiltered) as [->|H1].
    { destruct (hasActive _ _ _).
      - split; [intros _; right; eauto|eauto].
      - split; [by intros (? & ? & _)|].
        intros [(st' & [= <-] & _ & Hne)|[? _]]; done. }
    destruct (String.eqb_spec state tempAllowed) as [->|H2].
    { destruct (hasActive _ _ _).
      - split; [intros _; right; eauto|eauto].
      - split.
        + intros (st' & [= <-] & Hin). by apply tempAllowed_not_excluding in Hin.
        + intros [(st' & [= <-] & Hin & _)|[? _]]; [|done].
          by apply tempAllowed_not_excluding in Hin. }
    split.
    + intros (st' & [= <-] & Hin). left. eauto.
    + intros [(st' & [= <-] & Hin & _)|[_ [?|[[= ?]|[= ?]]]]]; eauto; done.
  - destruct (hasActive _ _ _).
    + split; [intros _; right; eauto|eauto].
    + split; [by intros (? & ? & _)|].
      intros [(st' & ? & _)|[? _]]; done.
Qed.

(** *** The bounds of a downtime *)

(** X18. The bounds of a downtime are exclusive: a record that begins at
    the very instant of the clock reading does not filter its server, and
    a record that ends at that instant is dropped altogether, with no
    change to the registry, the table or the log. *)
Theorem downtime_bounds_exclusive now fs latest logs d :
  (time_Parse timeLayout (dt_StartTime d) = inr now →
   (step now (fs, latest, logs) d).1.1 = fs)
  ∧ (∀ start, time_Parse timeLayout (dt_StartTime d) = inr start →
              time_Parse timeLayout (dt_EndTime d) = inr now →
              step now (fs, latest, logs) d = (fs, latest, logs)).
Proof.
  split.
  - intros Hs. rewrite downtimeStep_registry. unfold activeDowntime. rewrite Hs.
    destruct (time_Parse timeLayout (dt_EndTime d)); [done|].
    unfold Time_Before. by rewrite Z.ltb_irrefl, andb_false_r.
  - intros start Hs He. unfold downtimeStep. rewrite Hs, He.
    unfold Time_After. by rewrite Z.ltb_irrefl.
Qed.

(** *** Namespaces that are skipped *)

Lemma namespaceStep_skipped disableOrigins disableCaches acc ns :
  namespaceSkipped url_Parse ns = true →
  cacheAdMap (nsStep disableOrigins disableCaches acc ns) = cacheAdMap acc
  ∧ originAdMap (nsStep disableOrigins disableCaches acc ns) = originAdMap acc
  ∧ tGen (nsStep disableOrigins disableCaches acc ns) = tGen acc.
Proof.
  unfold namespaceSkipped, namespaceStep. intros [Htok Hbad]%andb_true_iff.
  rewrite Htok. by destruct (url_Parse (cg_Issuer (CredentialGen ns))).
Qed.

(** The maps and the carried token generation of an iteration do not
    depend on the log written so far. *)
Lemma namespaceStep_logs_irrelevant disableOrigins disableCaches acc acc' ns :
  cacheAdMap acc = cacheAdMap acc' → originAdMap acc = originAdMap acc' →
  tGen acc = tGen acc' →
  cacheAdMap (nsStep disableOrigins disableCaches acc ns)
  = cacheAdMap (nsStep disableOrigins disableCaches acc' ns)
  ∧ originAdMap (nsStep disableOrigins disableCaches acc ns)
    = originAdMap (nsStep disableOrigins disableCaches acc' ns)
  ∧ tGen (nsStep disableOrigins disableCaches acc ns)
    = tGen (nsStep disableOrigins disableCaches acc' ns).
Proof.
  destruct acc as [c o g l], acc' as [c' o' g' l']. cbn [cacheAdMap originAdMap tGen].
  intros <- <- <-. unfold namespaceStep. cbn [cacheAdMap originAdMap tGen importLogs].
  destruct (UseTokenOnRead ns).
  - destruct (url_Parse (cg_Issuer (CredentialGen ns))) as [err|credIssuer]; [done|].
    destruct (foldl _ ([], []) (Scitokens ns)) as [tokenIssuers logs].
    destruct (negb disableOrigins), (negb disableCaches);
      repeat match goal with
             | |- context [foldl ?f (?m, []) ?l] => destruct (foldl f (m, []) l)
             end; done.
  - destruct (negb disableOrigins), (negb disableCaches);
      repeat match goal with
             | |- context [foldl ?f (?m, []) ?l] => destruct (foldl f (m, []) l)
             end; done.
Qed.

Lemma foldl_namespaceStep_without_skipped disableOrigins disableCaches nss acc acc' :
  cacheAdMap acc = cacheAdMap acc' → originAdMap acc = originAdMap acc' →
  tGen acc = tGen acc' →
  let imp := foldl (nsStep disableOrigins disableCaches) acc nss in
  let imp' := foldl (nsStep disableOrigins disableCaches) acc'
                    (filter (λ ns, namespaceSkipped url_Parse ns = false) nss) in
  cacheAdMap imp = cacheAdMap imp' ∧ originAdMap imp = originAdMap imp'.
Proof.
  revert acc acc'. induction nss as [|ns nss IH]; intros acc acc' Hc Ho Hg; [done|].
  cbv zeta. rewrite filter_cons. cbn [foldl].
  destruct (namespaceSkipped url_Parse ns) eqn:Hskip.
  - rewrite decide_False by done.
    destruct (namespaceStep_skipped disableOrigins disableCaches acc ns Hskip)
      as (H1 & H2 & H3).
    apply IH; congruence.
  - rewrite decide_True by done. cbn [foldl].
    destruct (namespaceStep_logs_irrelevant disableOrigins disableCaches acc acc' ns
                Hc Ho Hg) as (H1 & H2 & H3).
    by apply IH.
Qed.

(** X19. A namespace that asks for a token and whose credential issuer is
    not a URL is skipped as a whole: [AdvertiseOSDF] returns the same
    result and leaves the same director state as for the manifest without
    such namespaces; only the log differs. *)
Theorem skipped_namespaces_do_not_matter src (st : @DirectorState AdState) manifest :
  GetTopologyJSON src = inr manifest →
  (advertise src st).1
  = (advertise (withTopologyJSON (inr (withoutSkipped url_Parse manifest)) src) st).1.
Proof.
  intros Hjson. unfold AdvertiseOSDF, withTopologyJSON.
  cbn [GetTopologyJSON Topology_DisableDowntime Topology_DisableOrigins
       Topology_DisableCaches downtimeSource].
  rewrite Hjson.
  destruct (if negb (Topology_DisableDowntime src) then _ else _) as [[err dts] logs1].
  cbn [fst snd]. unfold withoutSkipped. cbn [Namespaces].
  destruct (foldl_namespaceStep_without_skipped
              (Topology_DisableOrigins src) (Topology_DisableCaches src)
              (Namespaces manifest)
              (mkImportState ∅ ∅ (TokenGen_zero url_zero) [])
              (mkImportState ∅ ∅ (TokenGen_zero url_zero) []) eq_refl eq_refl eq_refl)
    as [Hc Ho].
  by rewrite Hc, Ho.
Qed.

End Properties.

(** *** The path prefix table *)

(** C5. [computePrefix] returns the stated string on each of the seven
    cases of the path prefix table and of its test. *)
Theorem computePrefix_table :
  let mount := λ components, [metrics.mkPathList components] in
  metrics.computePrefix "/foo" (mount [""; "*"]) = "/foo"
  ∧ metrics.computePrefix "/foo" (mount [""; "baz"]) = "/"
  ∧ metrics.computePrefix "/foo" (mount [""; ""]) = "/"
  ∧ metrics.computePrefix "/foo" (mount [""; "foo"]) = "/foo"
  ∧ metrics.computePrefix "/foo/bar/baz" (mount [""; "foo"; "*"; "baz"]) = "/foo/bar/baz"
  ∧ metrics.computePrefix "/foo/bar/baz"
      [metrics.mkPathList [""; "1"]; metrics.mkPathList [""; "foo"; "*"; "baz"]]
    = "/foo/bar/baz"
  ∧ metrics.computePrefix "/foo/bar/baz" (mount [""; "foo"; "*"; "*"]) = "/foo/bar/baz".
Proof. cbv zeta. repeat split; vm_compute; reflexivity. Qed.

(** ** Closed examples *)

Local Abbreviation sample_updateDowntime info :=
  (updateDowntimeFromTopology sample_url_Parse sample_time_Parse (sample_unmarshal info)).

(** C2 fails as stated: cache-A is [tempAllowed], the feed has a
    currently-active downtime for it, and after the import [checkFilter]
    reports cache-A as filtered, for the reason [topoFiltered]. *)
Lemma tempAllowed_does_not_suppress_topoFiltered :
  filteredServers sample_state_allowed !! "cache-A" = Some tempAllowed
  ∧ activeDowntime sample_time_Parse sample_now sample_active_downtime = true
  ∧ (checkFilter
       (filteredServers
          (sample_updateDowntime sample_feed_active sample_source sample_state_allowed).1.2)
       "cache-A").1 = (true, topoFiltered).
Proof. repeat split; vm_compute; reflexivity. Qed.

Lemma tempAllowed_replaced_by_active_downtime_witness :
  filteredServers
    (sample_updateDowntime sample_feed_active sample_source sample_state_allowed).1.2
    !! "cache-A" = Some topoFiltered
  ∧ (checkFilter
       (filteredServers
          (sample_updateDowntime sample_feed_active sample_source sample_state_allowed).1.2)
       "cache-A").1 = (true, topoFiltered).
Proof.
  apply (tempAllowed_replaced_by_active_downtime
           sample_url_Parse sample_time_Parse (sample_unmarshal sample_feed_active)
           sample_source sample_state_allowed sample_downtime_url [] sample_feed_active
           sample_active_downtime).
  - reflexivity.
  - reflexivity.
  - reflexivity.
  - vm_compute. reflexivity.
  - simpl. left.
  - vm_compute. reflexivity.
Defined.




Lemma topology_import_failure_keeps_state_witness :
  (∃ e, AdvertiseOSDF "" sample_url_Parse id SampleOrigin SampleCache
          SampleServerType_String sample_time_Parse (sample_unmarshal sample_feed_active)
          sample_recordAd sample_topology_down sample_director_state
        = (Some e, sample_director_state, []))
  ∧ (∃ e, sample_updateDowntime sample_feed_active sample_source_down sample_state_filtered
          = (Some e, sample_state_filtered, []))
  ∧ (sample_updateDowntime sample_feed_active sample_source_down sample_state_filtered).1.2
    = sample_state_filtered.
Proof.
  pose proof (topology_import_failure_keeps_state "" sample_url_Parse id
                SampleOrigin SampleCache SampleServerType_String sample_time_Parse
                (sample_unmarshal sample_feed_active) sample_recordAd) as (H1 & H2 & H3).
  split; [|split].
  - apply (H1 sample_topology_down sample_director_state "connection refused").
    reflexivity.
  - apply (H2 sample_source_down sample_state_filtered).
    right; left. eexists. reflexivity.
  - apply (H3 sample_source_down sample_state_filtered
              (errors_Wrap "connection refused"
                 ("failed to fetch topology downtime from " +:+ sample_downtime_url))).
    reflexivity.
Defined.

Lemma server_count_tracks_store_witness : serverCountAgrees sample_store.
Proof.
  apply (proj2 (proj2 (@server_count_tracks_store string unit)) sample_empty_store).
  - intros server_name server_type from_topology.
    destruct (decide (from_topology = "true"));
      [|destruct (decide (from_topology = "false"))]; reflexivity.
  - eapply rtc_l; [apply (step_insertion 10 "https://cache-A"
                            (sample_ad "cache-A" "Cache" false) 900); reflexivity|].
    eapply rtc_l; [apply (step_insertion 20 "https://cache-B"
                            (sample_ad "cache-B" "Cache" true) 900); reflexivity|].
    eapply rtc_l; [apply (step_eviction "https://cache-A"); eexists; reflexivity|].
    apply rtc_refl.
Defined.

(** In the sample store cache-B, taken from the topology, is left: its
    child shows one, the child of the evicted cache-A shows zero. *)
Example sample_store_server_count :
  let g := PelicanDirectorServerCount (hookState sample_store) in
  Gauge_value g ("cache-B", "Cache", "true") = 1
  ∧ Gauge_value g ("cache-A", "Cache", "false") = 0
  ∧ storedServers "cache-B" "Cache" true (cache_items (serverAds sample_store)) = 1%nat
  ∧ storedServers "cache-A" "Cache" false (cache_items (serverAds sample_store)) = 0%nat.
Proof. vm_compute. done. Qed.

(** With touching left on, the same lookup moves the expiry to
    [now + ttl]: this is what the option given by the scraper prevents. *)
Example Cache_Get_touch_extends_expiry :
  let item := mkItem (sample_ad "cache-A" "Cache" false) 900 910 in
  let c := mkCache {[ "https://cache-A" := item ]} false 0 0 in
  item_expiresAt <$> cache_items (Cache_Get 500 "https://cache-A" [] c).2 !! "https://cache-A"
    = Some 1400
  ∧ item_expiresAt
      <$> cache_items (Cache_Get 500 "https://cache-A" [WithDisableTouchOnHit] c).2
          !! "https://cache-A"
    = Some 910.
Proof. split; vm_compute; reflexivity. Qed.

(** An overwrite in place runs no hook: when the labels of the new
    advertisement differ from those of the old one, the gauge keeps
    counting the old labels. Such a [Set] is neither an insertion nor an
    eviction. *)
Example Cache_Set_overwrite_runs_no_hook :
  let s := Cache_Set 10 "https://cache-A" (sample_ad "cache-A" "Cache" true) 900
             sample_empty_store in
  let s' := Cache_Set 20 "https://cache-A" (sample_ad "cache-A" "Cache" false) 900 s in
  Gauge_value (PelicanDirectorServerCount (hookState s')) ("cache-A", "Cache", "true") = 1
  ∧ storedWithLabels ("cache-A", "Cache", "true") (cache_items (serverAds s')) = 0%nat.
Proof. split; vm_compute; reflexivity. Qed.

(** ** Closed examples for the further properties *)

Lemma import_registry_pointwise_witness :
  filteredServers
    (sample_updateDowntime sample_feed_active sample_source sample_state_allowed).1.2
    !! "cache-A"
  = registryAfterImport (filteredServers sample_state_allowed !! "cache-A")
      (hasActiveDowntime sample_time_Parse (time_Now sample_source) "cache-A"
         (CurrentDowntimes sample_feed_active ++ FutureDowntimes sample_feed_active)).
Proof.
  apply (import_registry_pointwise sample_url_Parse sample_time_Parse
           (sample_unmarshal sample_feed_active) sample_source sample_state_allowed
           sample_downtime_url [] sample_feed_active "cache-A");
    reflexivity.
Defined.

Lemma import_idempotent_witness :
  sample_updateDowntime sample_feed_active sample_source
    (sample_updateDowntime sample_feed_active sample_source sample_state_allowed).1.2
  = sample_updateDowntime sample_feed_active sample_source sample_state_allowed.
Proof.
  apply (import_idempotent sample_url_Parse sample_time_Parse
           (sample_unmarshal sample_feed_active) sample_source sample_state_allowed
           sample_downtime_url [] sample_feed_active);
    reflexivity.
Defined.

Lemma configured_server_stays_permFiltered_witness :
  let st := mkDowntimeState
              (ConfigFilteredServers (mkFilteredServersParam true ["cache-A"])
                 (filteredServers sample_state_allowed)).1 ∅ in
  (checkFilter (filteredServers st) "cache-A").1 = (true, permFiltered)
  ∧ (checkFilter
       (filteredServers (sample_updateDowntime sample_feed_active sample_source st).1.2)
       "cache-A").1 = (true, permFiltered).
Proof.
  apply (configured_server_stays_permFiltered sample_url_Parse sample_time_Parse
           (sample_unmarshal sample_feed_active)
           (mkFilteredServersParam true ["cache-A"])
           (filteredServers sample_state_allowed) ∅ sample_source "cache-A").
  - reflexivity.
  - simpl. left.
Defined.

Lemma import_builds_downtime_table_witness :
  let table :=
    topologyDowntimes
      (sample_updateDowntime sample_feed_active sample_source sample_state_allowed).1.2 in
  table !! "cache-A"
  = match topologyRecordsFor sample_time_Parse (time_Now sample_source) "cache-A"
            (CurrentDowntimes sample_feed_active ++ FutureDowntimes sample_feed_active) with
    | [] => None
    | rs => Some rs
    end
  ∧ (∀ rs r, table !! "cache-A" = Some rs → r ∈ rs →
       ServerName r = "cache-A" ∧ Source r = "topology"
       ∧ Time_UnixMilli (time_Now sample_source) ≤ EndTime r).
Proof.
  apply (import_builds_downtime_table sample_url_Parse sample_time_Parse
           (sample_unmarshal sample_feed_active) sample_source sample_state_allowed
           sample_downtime_url [] sample_feed_active "cache-A");
    reflexivity.
Defined.

Lemma import_keeps_first_seen_witness :
  ∃ a', originAdMap
          (foldl (namespaceStep "" sample_url_Parse id SampleOrigin SampleCache
                    SampleServerType_String false false)
                 sample_import_state (Namespaces sample_manifest))
          !! "http://origin-b.example:1094" = Some a'
        ∧ adExtends (sample_ad "origin-B" "Origin" true) a'.
Proof.
  apply (proj1 (import_keeps_first_seen "" sample_url_Parse id SampleOrigin SampleCache
                  SampleServerType_String false false sample_import_state
                  (Namespaces sample_manifest) "http://origin-b.example:1094"
                  (sample_ad "origin-B" "Origin" true))).
  vm_compute. reflexivity.
Defined.

Lemma import_maps_wellformed_witness :
  map_Forall (λ _ a, DirectReads (Caps (ad_ServerAd a)) = true)
    (originAdMap
       (foldl (namespaceStep "" sample_url_Parse id SampleOrigin SampleCache
                 SampleServerType_String false false)
              (mkImportState ∅ ∅ (TokenGen_zero "") []) (Namespaces sample_manifest))).
Proof.
  apply (proj2 (proj2 (import_maps_wellformed "" sample_url_Parse id SampleOrigin
                         SampleCache SampleServerType_String false false
                         (Namespaces sample_manifest)))).
  simpl. discriminate.
Defined.

Local Abbreviation sample_advertise :=
  (AdvertiseOSDF "" sample_url_Parse id SampleOrigin SampleCache SampleServerType_String
     sample_time_Parse (sample_unmarshal sample_feed_active) sample_recordAd).

Lemma downtime_failure_not_fatal_witness :
  (sample_advertise sample_topology_no_downtime sample_director_state).1.1 = None
  ∧ downtimeState (sample_advertise sample_topology_no_downtime sample_director_state).1.2
    = downtimeState sample_director_state
  ∧ Log ErrorLevel "Unable to generate downtime list for servers from topology: %v"
        [errors_Wrap "connection refused"
           ("failed to fetch topology downtime from " +:+ sample_downtime_url)]
    ∈ (sample_advertise sample_topology_no_downtime sample_director_state).2.
Proof.
  destruct (downtime_failure_not_fatal "" sample_url_Parse id SampleOrigin SampleCache
              SampleServerType_String sample_time_Parse
              (sample_unmarshal sample_feed_active) sample_recordAd
              sample_topology_no_downtime sample_director_state sample_manifest eq_refl)
    as (H1 & _ & H3).
  split; [exact H1|].
  apply H3; reflexivity.
Defined.

Lemma import_switches_witness :
  downtimeState (sample_advertise sample_topology_off sample_director_state).1.2
  = downtimeState sample_director_state
  ∧ adState (sample_advertise sample_topology_off sample_director_state).1.2
    = adState sample_director_state.
Proof.
  destruct (import_switches "" sample_url_Parse id SampleOrigin SampleCache
              SampleServerType_String sample_time_Parse
              (sample_unmarshal sample_feed_active) sample_recordAd
              sample_topology_off sample_director_state) as [H1 H2].
  split; [apply H1 | apply H2]; reflexivity.
Defined.

Lemma unparsable_endpoints_share_one_entry_witness :
  let nsAd := mkNamespaceAdV2 "/chtc" Capabilities_zero [] [] true in
  ∃ a, (foldl (addTopologyServer "" sample_url_Parse_strict id SampleCache
                 SampleServerType_String SampleOrigin Capabilities_zero nsAd)
              (∅, [])
              [mkTopoServer "origin-X" "no such host" "";
               mkTopoServer "origin-Y" "neither this one" ""]).1
       = {[ "" := a ]}
       ∧ Name (ad_ServerAd a) = "origin-X"
       ∧ NamespaceAds a = replicate 2 nsAd.
Proof.
  apply (unparsable_endpoints_share_one_entry "" sample_url_Parse_strict id SampleCache
           SampleServerType_String SampleOrigin Capabilities_zero
           (mkNamespaceAdV2 "/chtc" Capabilities_zero [] [] true)
           (mkTopoServer "origin-X" "no such host" "")
           [mkTopoServer "origin-Y" "neither this one" ""]).
  repeat constructor; eexists; vm_compute; reflexivity.
Defined.

Lemma scraper_writes_only_named_live_ads_witness :
  cache_items (serverIOQueryRound sample_ParseFloat 1000 (inr sample_query) sample_cache).1.1
    !! "https://cache-A"
  = Some (mkItem (sample_ad "cache-A" "Cache" false) 900 910)
  ∧ (serverIOQueryRound sample_ParseFloat 1000 (inl "connection refused") sample_cache).1.1
    = sample_cache.
Proof.
  destruct (scraper_writes_only_named_live_ads sample_ParseFloat 1000 (inr sample_query)
              sample_cache "https://cache-A") as (H1 & _ & _).
  destruct (scraper_writes_only_named_live_ads sample_ParseFloat 1000
              (inl "connection refused") sample_cache "https://cache-A") as (_ & _ & H3).
  split.
  - apply H1; vm_compute; reflexivity.
  - apply H3. left. eexists. reflexivity.
Defined.

Lemma scraper_last_row_sets_load_witness :
  let r := serverIOQueryRound sample_ParseFloat 1000 (inr sample_query) sample_cache in
  r.2 = false
  ∧ ∃ it', cache_items r.1.1 !! "https://cache-B" = Some it'
           ∧ IOLoad (ad_ServerAd (item_value it')) = 12.5%float.
Proof.
  apply (scraper_last_row_sets_load sample_ParseFloat 1000 sample_query
           [sample_row "https://cache-A" "12.5"; sample_row "https://cache-C" "3"]
           (sample_row "https://cache-B" "12.5") sample_cache "https://cache-B"
           (mkItem (sample_ad "cache-B" "Cache" true) 900 2000) "12.5" [] 12.5%float).
  - reflexivity.
  - reflexivity.
  - repeat constructor; intros s _; discriminate.
  - vm_compute. reflexivity.
  - reflexivity.
  - discriminate.
  - reflexivity.
  - split; vm_compute; reflexivity.
Defined.

Lemma insert_then_evict_restores_witness :
  let s' := Cache_evict "https://cache-A"
              (Cache_Set 10 "https://cache-A" (sample_ad "cache-A" "Cache" false) 900
                 sample_empty_store) in
  cache_items (serverAds s') = cache_items (serverAds sample_empty_store)
  ∧ (∀ l, Gauge_value (PelicanDirectorServerCount (hookState s')) l
          = Gauge_value (PelicanDirectorServerCount (hookState sample_empty_store)) l)
  ∧ statUtils (hookState s')
    = delete "https://cache-A" (statUtils (hookState sample_empty_store)).
Proof.
  apply (insert_then_evict_restores 10 "https://cache-A"
           (sample_ad "cache-A" "Cache" false) 900 sample_empty_store).
  reflexivity.
Defined.

Lemma excluded_after_import_witness :
  (checkFilter
     (filteredServers
        (sample_updateDowntime sample_feed_active sample_source sample_state_allowed).1.2)
     "cache-A").1.1 = true
  ↔ (∃ state, filteredServers sample_state_allowed !! "cache-A" = Some state
              ∧ state ∈ excludingStates ∧ state ≠ topoFiltered)
    ∨ (hasActiveDowntime sample_time_Parse (time_Now sample_source) "cache-A"
         (CurrentDowntimes sample_feed_active ++ FutureDowntimes sample_feed_active) = true
       ∧ (filteredServers sample_state_allowed !! "cache-A" = None
          ∨ filteredServers sample_state_allowed !! "cache-A" = Some topoFiltered
          ∨ filteredServers sample_state_allowed !! "cache-A" = Some tempAllowed)).
Proof.
  apply (excluded_after_import sample_url_Parse sample_time_Parse
           (sample_unmarshal sample_feed_active) sample_source sample_state_allowed
           sample_downtime_url [] sample_feed_active "cache-A");
    reflexivity.
Defined.

Lemma downtime_bounds_exclusive_witness :
  (downtimeStep sample_time_Parse sample_start (∅, ∅, []) sample_active_downtime).1.1 = ∅
  ∧ downtimeStep sample_time_Parse sample_end (∅, ∅, []) sample_active_downtime
    = (∅, ∅, []).
Proof.
  split.
  - apply (proj1 (downtime_bounds_exclusive sample_time_Parse sample_start ∅ ∅ []
                    sample_active_downtime)).
    reflexivity.
  - apply (proj2 (downtime_bounds_exclusive sample_time_Parse sample_end ∅ ∅ []
                    sample_active_downtime) sample_start);
      reflexivity.
Defined.

Lemma skipped_namespaces_do_not_matter_witness :
  (AdvertiseOSDF "" sample_url_Parse_strict id SampleOrigin SampleCache
     SampleServerType_String sample_time_Parse (sample_unmarshal sample_feed_active)
     sample_recordAd sample_topology_bad_issuer sample_director_state).1
  = (AdvertiseOSDF "" sample_url_Parse_strict id SampleOrigin SampleCache
       SampleServerType_String sample_time_Parse (sample_unmarshal sample_feed_active)
       sample_recordAd
       (withTopologyJSON
          (inr (withoutSkipped sample_url_Parse_strict sample_manifest_bad_issuer))
          sample_topology_bad_issuer)
       sample_director_state).1.
Proof.
  apply (skipped_namespaces_do_not_matter "" sample_url_Parse_strict id SampleOrigin
           SampleCache SampleServerType_String sample_time_Parse
           (sample_unmarshal sample_feed_active) sample_recordAd
           sample_topology_bad_issuer sample_director_state sample_manifest_bad_issuer).
  reflexivity.
Defined.
